(** * Job planning core of NMSSMPheno: a shallow embedding in Rocq

    Python strings are [string]; Python lists of tokens are [list string];
    a Python exception is an [exn] carried by [result].  Functions that
    mutate a list in place return the new list (explicit state passing). *)

From Stdlib Require Import Ascii String.
From stdpp Require Import base list strings pretty gmap.

Open Scope string_scope.
Open Scope list_scope.

(** ** Python exceptions and the error monad *)

Inductive exn :=
  | KeyError
  | IndexError
  | ValueError
  | AttributeError
  | IOError.

Inductive result (A : Type) :=
  | Ok (a : A)
  | Err (e : exn).
Arguments Ok {A} a.
Arguments Err {A} e.

Definition rbind {A B} (m : result A) (k : A -> result B) : result B :=
  match m with
  | Ok a => k a
  | Err e => Err e
  end.

Notation "'let*' x := m 'in' k" := (rbind m (fun x => k))
  (at level 200, x name, m at level 100, k at level 200).

(** ** Python list and str primitives *)

(** [s.startswith(p)] *)
Definition startswith (s p : string) : bool := String.prefix p s.

(** [x in l] *)
Definition py_in (x : string) (l : list string) : bool :=
  existsb (String.eqb x) l.

(** [l.index(x)]: first position of [x], [ValueError] when absent. *)
Fixpoint py_index (x : string) (l : list string) : result nat :=
  match l with
  | [] => Err ValueError
  | y :: l' =>
      if String.eqb x y then Ok 0
      else let* i := py_index x l' in Ok (S i)
  end.

(** [l[i]] for a non-negative index. *)
Definition py_getitem (l : list string) (i : nat) : result string :=
  match l !! i with
  | Some v => Ok v
  | None => Err IndexError
  end.

(** [l[-1]] *)
Definition py_last (l : list string) : result string :=
  match last l with
  | Some v => Ok v
  | None => Err IndexError
  end.

(** [l[i] = v] for a non-negative index. *)
Definition py_setitem (l : list string) (i : nat) (v : string)
  : result (list string) :=
  if decide (i < length l) then Ok (<[i := v]> l) else Err IndexError.

(** [l.insert(i, v)] for a non-negative index. *)
Definition py_insert (l : list string) (i : nat) (v : string) : list string :=
  take i l ++ v :: drop i l.

(** Truth value of an [Optional[str]]: [None] and [""] are false. *)
Definition truthy (o : option string) : bool :=
  match o with
  | Some v => negb (String.eqb v "")
  | None => false
  end.

(** ** ArgVector: [get_option_in_args] and [set_option_in_args]
    (src/Pythia/submit_py8_jobs_htcondor_new.py) *)

Definition get_option_in_args (args : list string) (flag : string)
  : result (option string) :=
  if negb (py_in flag args) then Err KeyError else
  let* l := py_last args in
  if String.eqb flag l then Ok None else
  let* i := py_index flag args in
  let* val := py_getitem args (S i) in
  if startswith val "-" then Ok None else Ok (Some val).

Definition set_option_in_args (args : list string) (flag value : string)
  : result (list string) :=
  let* cur := get_option_in_args args flag in
  if truthy cur then
    let* i := py_index flag args in
    py_setitem args (S i) value
  else
    let* l := py_last args in
    if String.eqb flag l then Ok (args ++ [value])
    else
      let* i := py_index flag args in
      let* nxt := py_getitem args (S i) in
      if startswith nxt "-" then Ok (py_insert args (S i) value)
      else Ok args.


(** ** ArtifactBatcher: [common.grouper] (src/Common/common.py)

    [grouper(iterable, n, fillvalue)] is [izip_longest(fillvalue=fillvalue,
    *args)] with [args = [iter(iterable)] * n]: the [n] argument iterators
    are one and the same iterator.  The model follows CPython 2's
    [izip_longest_next]: the tuple of argument iterators is a list of slots
    ([true] while the slot's iterator is live), [numactive] counts the live
    slots, and the shared iterator is the list of the items not yet
    consumed.  [[x] * n] is the empty list when [n <= 0]. *)

Section Grouper.
Context {A : Type}.

(** Building one output tuple; [None] is the [return NULL] taken when the
    last live slot gets exhausted. *)
Fixpoint izip_fill (fill : A) (slots : list bool) (numactive : nat)
    (it : list A) : option (list A * list bool * nat * list A) :=
  match slots with
  | [] => Some ([], [], numactive, it)
  | false :: slots' =>
      match izip_fill fill slots' numactive it with
      | Some (t, s, na, it') => Some (fill :: t, false :: s, na, it')
      | None => None
      end
  | true :: slots' =>
      match it with
      | x :: it0 =>
          match izip_fill fill slots' numactive it0 with
          | Some (t, s, na, it') => Some (x :: t, true :: s, na, it')
          | None => None
          end
      | [] =>
          let na := numactive - 1 in
          if Nat.eqb na 0 then None
          else
            match izip_fill fill slots' na [] with
            | Some (t, s, na', it') => Some (fill :: t, false :: s, na', it')
            | None => None
            end
      end
  end.

(** Iterating [next] on the [izip_longest] object.  Every tuple that is
    produced consumes at least one item of the shared iterator, so
    [S (length it)] calls exhaust it; the fuel is only a termination
    device. *)
Fixpoint izip_run (fuel : nat) (fill : A) (slots : list bool)
    (numactive : nat) (it : list A) : list (list A) :=
  match fuel with
  | 0 => []
  | S fuel' =>
      if Nat.eqb (length slots) 0 || Nat.eqb numactive 0 then []
      else
        match izip_fill fill slots numactive it with
        | Some (t, s, na, it') => t :: izip_run fuel' fill s na it'
        | None => []
        end
  end.

Definition grouper (iterable : list A) (n : Z) (fillvalue : A)
    : list (list A) :=
  izip_run (S (length iterable)) fillvalue
    (repeat true (Z.to_nat n)) (Z.to_nat n) iterable.

End Grouper.

(** ** More [str] primitives *)

Definition nl : ascii := "010".

Fixpoint str_drop (n : nat) (s : string) : string :=
  match n, s with
  | 0, _ => s
  | S n', String _ s' => str_drop n' s'
  | S _, EmptyString => EmptyString
  end.

Fixpoint str_take (n : nat) (s : string) : string :=
  match n, s with
  | 0, _ => EmptyString
  | S n', String c s' => String c (str_take n' s')
  | S _, EmptyString => EmptyString
  end.

(** [sub in s] for strings *)
Fixpoint contains (sub s : string) : bool :=
  String.prefix sub s ||
  match s with
  | EmptyString => false
  | String _ s' => contains sub s'
  end.

(** [s.rfind(c)] for a one-character [c]; [None] stands for [-1]. *)
Fixpoint rfind (c : ascii) (s : string) : option nat :=
  match s with
  | EmptyString => None
  | String d s' =>
      match rfind c s' with
      | Some i => Some (S i)
      | None => if Ascii.eqb c d then Some 0 else None
      end
  end.

(** Does [s] contain the character [c]? *)
Fixpoint str_has (c : ascii) (s : string) : bool :=
  match s with
  | EmptyString => false
  | String d s' => Ascii.eqb c d || str_has c s'
  end.

(** [s.replace(old, new)] for a non-empty [old]: occurrences are replaced
    left to right without overlap.  Each step consumes at least one
    character of [s], so [length s] steps suffice. *)
Fixpoint replace_go (fuel : nat) (old new s : string) : string :=
  match fuel with
  | 0 => s
  | S fuel' =>
      match s with
      | EmptyString => EmptyString
      | String c s' =>
          if String.prefix old s
          then new +:+ replace_go fuel' old new (str_drop (String.length old) s)
          else String c (replace_go fuel' old new s')
      end
  end.

(** [s.replace("", new)] inserts [new] before every character and at the
    end. *)
Fixpoint replace_empty (new s : string) : string :=
  match s with
  | EmptyString => new
  | String c s' => new +:+ String c (replace_empty new s')
  end.

Definition py_replace (s old new : string) : string :=
  if String.eqb old "" then replace_empty new s
  else replace_go (String.length s) old new s.

(** [f.readlines()]: lines keep their trailing newline. *)
Fixpoint readlines (s : string) : list string :=
  match s with
  | EmptyString => []
  | String c s' =>
      if Ascii.eqb c nl then String c EmptyString :: readlines s'
      else
        match readlines s' with
        | [] => [String c EmptyString]
        | l :: ls => String c l :: ls
        end
  end.

(** [''.join(lines)] *)
Definition join (lines : list string) : string := String.concat "" lines.

(** ** CardTemplater: [make_card] (src/MG5_aMC/run_mg5.py) *)

(** [p.search(line).group(1)] for [p = re.compile(name + r' (.STAR)$')]
    (STAR standing for the Kleene star), with [name]
    taken literally (the field names used by [run_mg5] are plain
    identifiers) and [pat = name + ' ']: at the leftmost position where
    [pat] occurs, the group takes the rest of the line up to the first
    newline, and [$] then has to match at the end of the string or just
    before a final newline; otherwise the search moves on.  [None] is the
    [None] returned by [search]. *)
Fixpoint dotstar_dollar (s : string) : option string :=
  match s with
  | EmptyString => Some EmptyString
  | String c s' =>
      if Ascii.eqb c nl then
        (if String.eqb s' "" then Some EmptyString else None)
      else
        match dotstar_dollar s' with
        | Some g => Some (String c g)
        | None => None
        end
  end.

Fixpoint regex_search (pat line : string) : option string :=
  match
    (if String.prefix pat line
     then dotstar_dollar (str_drop (String.length pat) line) else None)
  with
  | Some g => Some g
  | None =>
      match line with
      | EmptyString => None
      | String _ line' => regex_search pat line'
      end
  end.

(** The body of [for i, line in enumerate(card_template)] for one field:
    [p.search(line)] returning [None] makes [.group(1)] raise
    [AttributeError], which the [except IndexError] clause does not catch. *)
Definition make_card_line (name value line : string) : result string :=
  if String.eqb line "" || startswith line "#" || negb (contains name line)
  then Ok line
  else
    match regex_search (name +:+ " ") line with
    | None => Err AttributeError
    | Some old_values => Ok (py_replace line old_values value)
    end.

Fixpoint mapM {X Y} (f : X -> result Y) (l : list X) : result (list Y) :=
  match l with
  | [] => Ok []
  | x :: l' =>
      let* y := f x in
      let* ys := mapM f l' in
      Ok (y :: ys)
  end.

(** One iteration of [for name, value in fields.iteritems()]; the value is
    given by its [str()]. *)
Definition make_card_field (card_template : list string)
    (field : string * string) : result (list string) :=
  mapM (make_card_line field.1 field.2) card_template.

Fixpoint make_card_fields (card_template : list string)
    (fields : list (string * string)) : result (list string) :=
  match fields with
  | [] => Ok card_template
  | f :: fields' =>
      let* t := make_card_field card_template f in
      make_card_fields t fields'
  end.

(** The file system: file name to file content.  Opening a missing input
    card raises [IOError]. *)
Definition filesystem := gmap string string.

Definition make_card (fs : filesystem) (in_card out_card : string)
    (fields : list (string * string)) : result unit * filesystem :=
  match fs !! in_card with
  | None => (Err IOError, fs)
  | Some content =>
      match make_card_fields (readlines content) fields with
      | Err e => (Err e, fs)
      | Ok card_template => (Ok tt, <[out_card := join card_template]> fs)
      end
  end.

(** A word in the sense of Python's [\w]: letters, digits and [_]. *)
Definition is_word_char (c : ascii) : bool :=
  let n := Ascii.nat_of_ascii c in
  (Nat.leb 48 n && Nat.leb n 57) || (Nat.leb 65 n && Nat.leb n 90) ||
  (Nat.leb 97 n && Nat.leb n 122) || Nat.eqb n 95.

(** [name] occurs in [line] as a whole word: the occurrence is neither
    preceded nor followed by a word character. *)
Fixpoint word_occurs_go (prev_ok : bool) (name line : string) : bool :=
  (prev_ok && String.prefix name line &&
   match str_drop (String.length name) line with
   | EmptyString => true
   | String c _ => negb (is_word_char c)
   end) ||
  match line with
  | EmptyString => false
  | String c line' => word_occurs_go (negb (is_word_char c)) name line'
  end.

Definition word_occurs (name line : string) : bool :=
  word_occurs_go true name line.

(** ** NamingScheme (src/Pythia/submit_py8_jobs_htcondor_new.py) *)

(** Does [s] contain a character other than [c]? *)
Fixpoint str_has_other (c : ascii) (s : string) : bool :=
  match s with
  | EmptyString => false
  | String d s' => negb (Ascii.eqb c d) || str_has_other c s'
  end.

(** [os.path.basename(p)] (posixpath): [p[p.rfind('/') + 1:]]. *)
Definition basename (p : string) : string :=
  match rfind "/" p with
  | Some i => str_drop (S i) p
  | None => p
  end.

(** [os.path.splitext(p)] (genericpath._splitext with [sep = '/'],
    [extsep = '.']): split at the last dot if it comes after the last
    slash and the file name part before it is not made of dots only. *)
Definition splitext (p : string) : string * string :=
  let start := match rfind "/" p with Some i => S i | None => 0 end in
  match rfind "." p with
  | Some d =>
      if Nat.leb start d && str_has_other "." (str_take (d - start) (str_drop start p))
      then (str_take d p, str_drop d p)
      else (p, "")
  | None => (p, "")
  end.

(** [generate_filename]: ["%s_mass%s_%dTeV_n%s.%s" % (channel, str(mass),
    energy, str(num_events), fmt)]; [mass] is given by its [str()], the
    integers by their decimal form. *)
Definition generate_filename (channel mass : string) (energy num_events : Z)
    (fmt : string) : string :=
  channel +:+ "_mass" +:+ mass +:+ "_" +:+ pretty energy +:+ "TeV_n" +:+
  pretty num_events +:+ "." +:+ fmt.

(** ** JobPlanner: [generate_pythia_job] and [create_dag] *)

(** The fields of the [argparse.Namespace] used by the planner. *)
Record py8_args := {
  args_args : list string;
  channel : string;
  energy : Z;
  oDir : string;
  jobIdRange : Z * Z
}.

(** An [ht.Job]. *)
Record job := {
  job_name : string;
  job_args : list string;
  output_files : list string;
  hdfs_mirror_dir : string
}.

(** The loop [for fmt in ['hepmc', 'root', 'lhe']] of
    [generate_pythia_job], threading [exe_args] and [out_files].
    [os.path.basename(None)] raises [AttributeError]. *)
Fixpoint pythia_outputs (args : py8_args) (job_index : Z) (mass : string)
    (num_events : Z) (fmts : list string) (exe_args out_files : list string)
    : result (list string * list string) :=
  match fmts with
  | [] => Ok (exe_args, out_files)
  | fmt :: fmts' =>
      let flag := "--" +:+ fmt in
      if negb (py_in flag exe_args)
      then pythia_outputs args job_index mass num_events fmts' exe_args out_files
      else
        let* cur := get_option_in_args (args_args args) flag in
        let* exe_args1 :=
          if truthy cur then Ok exe_args
          else set_option_in_args exe_args flag
                 (generate_filename (channel args) mass (energy args)
                    num_events fmt) in
        let* v := get_option_in_args exe_args1 flag in
        match v with
        | None => Err AttributeError
        | Some v =>
            let out_name :=
              (splitext (basename v)).1 +:+ "_seed" +:+ pretty job_index +:+
              "." +:+ fmt in
            let* exe_args2 := set_option_in_args exe_args1 flag out_name in
            let out_name :=
              if py_in "--zip" exe_args2 then out_name +:+ ".gz" else out_name in
            pythia_outputs args job_index mass num_events fmts' exe_args2
              (out_files ++ [out_name])
        end
  end.

Definition output_formats : list string := ["hepmc"; "root"; "lhe"].

(** [generate_pythia_job]: [exe_args = args.args[:]] is a copy, to which
    the seed is appended. *)
Definition generate_pythia_job (args : py8_args) (job_index : Z)
    (mass : string) (num_events : Z) : result job :=
  let exe_args := args_args args ++ ["--seed"; pretty job_index] in
  let* r := pythia_outputs args job_index mass num_events output_formats
              exe_args [] in
  Ok {| job_name := pretty job_index +:+ "_" +:+ channel args;
        job_args := r.1;
        output_files := r.2;
        hdfs_mirror_dir := oDir args |}.

(** [xrange(start, stop + 1)] *)
Definition zrange (start stop : Z) : list Z :=
  map (fun k => (start + Z.of_nat k)%Z) (seq 0 (Z.to_nat (stop + 1 - start)%Z)).

(** [create_dag]: [num_events] is [get_number_events(args)], computed on
    entry.  Tokens are modelled as strings: the Python code puts the mass
    (a number) and the seed (an [int]) into the lists themselves, which
    matters only when a later lookup reads such a token with
    [.startswith], as a second [create_dag] call on the same namespace
    does for [--mass].  The mass is set in [args.args] itself (the list object of the
    caller's namespace), so the namespace with the updated [args.args] is
    returned with the jobs of the DAG, in order of addition. *)
Definition create_dag (args : py8_args) (mass : string) (num_events : Z)
    : result (list job * py8_args) :=
  let* base :=
    if py_in "--mass" (args_args args)
    then set_option_in_args (args_args args) "--mass" mass
    else Ok (args_args args ++ ["--mass"; mass]) in
  let args' := {| args_args := base; channel := channel args;
                  energy := energy args; oDir := oDir args;
                  jobIdRange := jobIdRange args |} in
  let* jobs :=
    mapM (fun j => generate_pythia_job args' j mass num_events)
      (zrange (jobIdRange args).1 (jobIdRange args).2) in
  Ok (jobs, args').

(** The name [generate_pythia_job] records for format [fmt] when its flag
    is given without a value: the name from [generate_filename] is read
    back, stripped by [os.path.basename] and [os.path.splitext(..)[0]],
    the seed and the format are appended, and [.gz] when [--zip] is among
    the job's arguments ([zip]). *)
Definition seeded_output_name (channel mass : string) (energy num_events : Z)
    (fmt : string) (job_index : Z) (zip : bool) : string :=
  let out_name :=
    (splitext (basename (generate_filename channel mass energy num_events
                           fmt))).1 +:+ "_seed" +:+ pretty job_index +:+ "." +:+ fmt in
  if zip then out_name +:+ ".gz" else out_name.

(** The names [generate_pythia_job] records for the job with seed
    [job_index]: [<stem>_seed<job_index>.<fmt>], with [.gz] appended when
    the job zips its output. *)
Definition seeded_name_of (job_index : Z) (name : string) : Prop :=
  exists stem fmt, fmt ∈ output_formats /\
    (name = stem +:+ "_seed" +:+ pretty job_index +:+ "." +:+ fmt \/
     name = (stem +:+ "_seed" +:+ pretty job_index +:+ "." +:+ fmt) +:+ ".gz").

(** ** Sample inputs *)

Definition line1 : string := "nevents 100" +:+ String nl "".

Definition ggh_args : py8_args :=
  {| args_args := ["--card"; "input_cards/ggh.cmnd"; "--mass"; "8";
                   "-n"; "100"; "--hepmc"; "--zip"];
     channel := "ggh"; energy := 13%Z; oDir := "/hdfs/out";
     jobIdRange := (1%Z, 3%Z) |}.

Definition card_in : string :=
  "generate p p > h" +:+ String nl "" +:+ "set run_card nevents" +:+ String nl "".

Definition mass_base_args : py8_args :=
  {| args_args := ["--card"; "c.txt"; "--mass"; "8"];
     channel := "ggh"; energy := 13%Z; oDir := "/hdfs/out";
     jobIdRange := (1%Z, 3%Z) |}.


(** ** Exceptions of the submission scripts

    The submission scripts raise, beside the exceptions of the planner
    core, [OSError], [RuntimeError], [TypeError] (from [int(None)]) and
    [UnboundLocalError] (from reading a local variable that was never
    assigned). *)

Inductive sys_exn :=
  | Py (e : exn)
  | OSError
  | RuntimeError
  | TypeError
  | UnboundLocalError.

Inductive outcome (A : Type) :=
  | Done (a : A)
  | Raise (e : sys_exn).
Arguments Done {A} a.
Arguments Raise {A} e.

(** A [result] of the planner core inside a script. *)
Definition lift {A} (r : result A) : outcome A :=
  match r with
  | Ok a => Done a
  | Err e => Raise (Py e)
  end.

(** ** [posixpath] and [str] helpers *)

(** [s.endswith(suf)] *)
Definition endswith (s suf : string) : bool :=
  Nat.leb (String.length suf) (String.length s) &&
  String.eqb (str_drop (String.length s - String.length suf) s) suf.

(** [s.rstrip(c)] for a one-character [c]. *)
Fixpoint rstrip (c : ascii) (s : string) : string :=
  match s with
  | EmptyString => EmptyString
  | String d s' =>
      match rstrip c s' with
      | EmptyString => if Ascii.eqb c d then EmptyString else String d EmptyString
      | r => String d r
      end
  end.

(** [str.lower()] of Python 2 in the C locale: only [A-Z] change. *)
Definition ascii_lower (c : ascii) : ascii :=
  let n := Ascii.nat_of_ascii c in
  if Nat.leb 65 n && Nat.leb n 90 then Ascii.ascii_of_nat (n + 32) else c.

Fixpoint lower (s : string) : string :=
  match s with
  | EmptyString => EmptyString
  | String c s' => String (ascii_lower c) (lower s')
  end.

(** [s.split(c)] for a one-character separator [c]: the first field and
    the remaining ones (there is always a first field). *)
Fixpoint split_sep (c : ascii) (s : string) : string * list string :=
  match s with
  | EmptyString => (EmptyString, [])
  | String d s' =>
      let (w, ws) := split_sep c s' in
      if Ascii.eqb c d then (EmptyString, w :: ws) else (String d w, ws)
  end.

Definition py_split (s : string) (c : ascii) : list string :=
  let (w, ws) := split_sep c s in w :: ws.

(** [os.path.join(a, b)] (posixpath). *)
Definition path_join (a b : string) : string :=
  if startswith b "/" then b
  else if String.eqb a "" || endswith a "/" then a +:+ b
  else a +:+ "/" +:+ b.

(** [os.path.dirname(p)] (posixpath): [head = p[:p.rfind('/') + 1]], whose
    trailing slashes are stripped when it is neither empty nor made of
    slashes only. *)
Definition dirname (p : string) : string :=
  let i := match rfind "/" p with Some i => S i | None => 0 end in
  let head := str_take i p in
  if negb (String.eqb head "") && str_has_other "/" head
  then rstrip "/" head else head.

(** ** Delphes submission (src/Delphes/submit_delphes_jobs_htcondor.py) *)

(** [stem]: ['.'.join(os.path.basename(filename).split('.')[0:1])]. *)
Definition stem (filename : string) : string :=
  String.concat "." (take 1 (py_split (basename filename) ".")).

(** [generate_output_dir] *)
Definition generate_output_dir (input_dir card filetype : string) : string :=
  let input_dir :=
    if endswith input_dir "/" then rstrip "/" input_dir else input_dir in
  let subdir := (splitext (basename card)).1 +:+ "_" +:+ filetype in
  path_join (dirname input_dir) subdir.

(** [check_args]; [isdir] and [isfile] are [os.path.isdir] and
    [os.path.isfile] on the current file system. *)
Definition delphes_check_args (isdir isfile : string -> bool)
    (card iDir delphes_dir : string) : outcome unit :=
  if negb (isdir delphes_dir) then Raise OSError
  else if negb (isdir iDir) then Raise OSError
  else if negb (isfile card) then Raise OSError
  else if negb (String.eqb (dirname card) "input_cards") then Raise OSError
  else Done tt.

(** [accept_file], local to [create_dag]. *)
Definition delphes_extensions : list string :=
  [".lhe"; ".hepmc"; ".gz"; ".tar.gz"; ".tgz"].

Definition accept_file (isfile : string -> bool) (filename : string) : bool :=
  let fl := lower (basename filename) in
  existsb (fun ext => isfile filename && endswith fl ext) delphes_extensions.

(** [filter(None, l)] of Python 2: the list of the true elements of [l]. *)
Fixpoint filter_true (l : list (option string)) : list string :=
  match l with
  | [] => []
  | o :: l' =>
      match o with
      | Some v => if truthy o then v :: filter_true l' else filter_true l'
      | None => filter_true l'
      end
  end.

(** [exe_dict[args.type]] *)
Definition exe_dict (type : string) : option string :=
  if String.eqb type "hepmc" then Some "./DelphesHepMC"
  else if String.eqb type "lhe" then Some "./DelphesLHEF"
  else None.

(** An [ht.Job] of the Delphes DAG: its name and its arguments. *)
Record delphes_job := {
  dj_name : string;
  dj_args : list string
}.

(** The output file of one input file. *)
Definition delphes_output (oDir f : string) : string :=
  path_join oDir (stem f) +:+ ".root".

(** [job_args] of the job over [input_files]. *)
Definition delphes_job_args (card delphes_exe oDir : string)
    (input_files : list string) : list string :=
  let output_files := map (delphes_output oDir) input_files in
  ["--card"; basename card; "--exe"; delphes_exe] ++
  concat (map (fun p => ["--process"; p.1; p.2])
                (zip input_files output_files)).

(** The jobs of [create_dag], in order of addition.  [listing] is
    [os.listdir(abs_idir)], [abs_idir] is [os.path.abspath(args.iDir)]
    and the job set's settings (executable, memory, transfers) are left
    out.  [grouper]'s default fill value is [None]. *)
Definition delphes_create_dag (isfile : string -> bool) (abs_idir : string)
    (listing : list string) (card oDir type : string)
    : outcome (list delphes_job) :=
  let input_files :=
    List.filter (accept_file isfile) (map (path_join abs_idir) listing) in
  match input_files with
  | [] => Raise OSError
  | _ =>
      match exe_dict type with
      | None => Raise (Py KeyError)
      | Some delphes_exe =>
          let files_per_job := 2%Z in
          Done (imap (fun ind grp =>
                        {| dj_name := "delphes" +:+ pretty ind;
                           dj_args := delphes_job_args card delphes_exe oDir
                                        (filter_true grp) |})
                     (grouper (map Some input_files) files_per_job None))
      end
  end.

(** ** Pythia submission (src/Pythia/submit_py8_jobs_htcondor_new.py):
    [int()] and [get_number_events] *)

Definition obind {A B} (m : outcome A) (k : A -> outcome B) : outcome B :=
  match m with
  | Done a => k a
  | Raise e => Raise e
  end.

Notation "'let+' x := m 'in' k" := (obind m (fun x => k))
  (at level 200, x name, m at level 100, k at level 200).

(** [isspace] of the C locale: space, [\t], [\n], [\v], [\f], [\r]. *)
Definition is_space (c : ascii) : bool :=
  let n := Ascii.nat_of_ascii c in
  Nat.eqb n 32 || (Nat.leb 9 n && Nat.leb n 13).

Fixpoint skip_space (s : string) : string :=
  match s with
  | EmptyString => EmptyString
  | String c s' => if is_space c then skip_space s' else s
  end.

Definition digit_value (c : ascii) : option Z :=
  let n := Ascii.nat_of_ascii c in
  if Nat.leb 48 n && Nat.leb n 57 then Some (Z.of_nat (n - 48)) else None.

(** The longest prefix of decimal digits, and the rest. *)
Fixpoint span_digits (s : string) : string * string :=
  match s with
  | EmptyString => (EmptyString, EmptyString)
  | String c s' =>
      match digit_value c with
      | Some _ => let (d, r) := span_digits s' in (String c d, r)
      | None => (EmptyString, s)
      end
  end.

(** The value of a string of digits, accumulated from the left as
    [PyOS_strtoul] does. *)
Fixpoint digits_val (acc : Z) (s : string) : Z :=
  match s with
  | EmptyString => acc
  | String c s' =>
      digits_val (acc * 10 + match digit_value c with Some d => d | None => 0 end)%Z s'
  end.

(** [int(s)] of Python 2 for a [str] [s] ([PyInt_FromString] in base 10,
    through [PyOS_strtol] and [PyOS_strtoul]): leading white space, an
    optional sign, white space again, at least one digit, trailing white
    space and nothing else; anything else raises [ValueError].  Values
    out of the range of a C [long] become a [long] of the same value. *)
Definition py_int (s : string) : outcome Z :=
  let s1 := skip_space s in
  let '(neg, s2) :=
    match s1 with
    | String c s' =>
        if Ascii.eqb c "-" then (true, s')
        else if Ascii.eqb c "+" then (false, s')
        else (false, s1)
    | EmptyString => (false, s1)
    end in
  let (digits, rest) := span_digits (skip_space s2) in
  if String.eqb digits "" then Raise (Py ValueError)
  else if String.eqb (skip_space rest) "" then
    Done (if neg then - digits_val 0 digits else digits_val 0 digits)%Z
  else Raise (Py ValueError).

(** [int(x)] for [x] a [str] or [None]: [int(None)] raises [TypeError]. *)
Definition py_int_opt (o : option string) : outcome Z :=
  match o with
  | Some s => py_int s
  | None => Raise TypeError
  end.

(** [get_number_events] on [args.args]. *)
Definition get_number_events (args : list string) : outcome Z :=
  if py_in "--number" args then
    let+ o := lift (get_option_in_args args "--number") in py_int_opt o
  else if py_in "-n" args then
    let+ o := lift (get_option_in_args args "-n") in py_int_opt o
  else Done 1%Z.

(** ** MG5_aMC: [get_value_from_card] and the new card of [run_mg5]
    (src/MG5_aMC/run_mg5.py) *)

(** [s.rstrip()] with no argument: trailing white space ([isspace]) is
    removed. *)
Fixpoint rstrip_space (s : string) : string :=
  match s with
  | EmptyString => EmptyString
  | String c s' =>
      match rstrip_space s' with
      | EmptyString => if is_space c then EmptyString else String c EmptyString
      | r => String c r
      end
  end.

(** [s.strip()] with no argument. *)
Definition strip (s : string) : string := rstrip_space (skip_space s).

(** [s.split()] with no argument: the maximal runs of characters other
    than white space.  [split_ws_go s] is the run [s] starts with and the
    runs after it. *)
Fixpoint split_ws_go (s : string) : string * list string :=
  match s with
  | EmptyString => (EmptyString, [])
  | String c s' =>
      let (w, ws) := split_ws_go s' in
      if is_space c then (EmptyString, if String.eqb w "" then ws else w :: ws)
      else (String c w, ws)
  end.

Definition split_ws (s : string) : list string :=
  let (w, ws) := split_ws_go s in
  if String.eqb w "" then ws else w :: ws.

(** The loop [for line in f] of [get_value_from_card]: the last word of
    the first line whose stripped form contains [field];
    [line.strip().split()[-1]] raises [IndexError] on a blank line. *)
Fixpoint find_field_value (field : string) (lines : list string) : result string :=
  match lines with
  | [] => Err KeyError
  | line :: lines' =>
      if contains field (strip line) then py_last (split_ws (strip line))
      else find_field_value field lines'
  end.

(** [get_value_from_card]: opening a missing card raises [IOError]; the
    lines of [for line in f] are those of [readlines]. *)
Definition get_value_from_card (fs : filesystem) (card field : string) : result string :=
  match fs !! card with
  | None => Err IOError
  | Some content => find_field_value field (readlines content)
  end.

(** The default name of the new card in [run_mg5]:
    [os.path.splitext(args.card)[0] + '_new' + os.path.splitext(args.card)[1]]. *)
Definition default_new_card (card : string) : string :=
  (splitext card).1 +:+ "_new" +:+ (splitext card).2.

(** Lines 94-97 of [run_mg5]: the new card is [args.new] when given and
    not empty, the default name otherwise, and [make_card] writes it. *)
Definition run_mg5_make_card (fs : filesystem) (card : string) (new : option string)
    (fields : list (string * string)) : result unit * filesystem :=
  let new_card :=
    match new with
    | Some n => if String.eqb n "" then default_new_card card else n
    | None => default_new_card card
    end in
  make_card fs card new_card fields.
(** The docstring examples of [get_option_in_args] and [set_option_in_args]. *)
Example get_option_doc1 :
  get_option_in_args ["--foo"; "bar"; "--man"] "--foo" = Ok (Some "bar").
Proof. reflexivity. Qed.
Example get_option_doc2 :
  get_option_in_args ["--foo"; "bar"; "--man"] "--man" = Ok None.
Proof. reflexivity. Qed.
Example get_option_doc3 :
  get_option_in_args ["--foo"; "bar"; "--man"] "--fish" = Err KeyError.
Proof. reflexivity. Qed.
Example set_option_doc :
  set_option_in_args ["--foo"; "bar"; "--man"; "--pasta"] "--foo" "ball"
    = Ok ["--foo"; "ball"; "--man"; "--pasta"] /\
  set_option_in_args ["--foo"; "ball"; "--man"; "--pasta"] "--man" "trap"
    = Ok ["--foo"; "ball"; "--man"; "trap"; "--pasta"] /\
  set_option_in_args ["--foo"; "ball"; "--man"; "trap"; "--pasta"] "--pasta" "bake"
    = Ok ["--foo"; "ball"; "--man"; "trap"; "--pasta"; "bake"].
Proof. repeat split; reflexivity. Qed.

Example grouper_scenario :
  grouper [Some "f1"; Some "f2"; Some "f3"; Some "f4"; Some "f5"] 2 None
  = [[Some "f1"; Some "f2"]; [Some "f3"; Some "f4"]; [Some "f5"; None]].
Proof. reflexivity. Qed.
Example grouper_exact : grouper [1;2;3;4] 2 0 = [[1;2];[3;4]].
Proof. reflexivity. Qed.
Example grouper_empty : grouper ([] : list nat) 3 0 = [].
Proof. reflexivity. Qed.

Example card_scenario :
  make_card_fields [line1; "# nevents 100" +:+ String nl ""; "output foo"]
    [("nevents", "500")]
  = Ok ["nevents 500" +:+ String nl ""; "# nevents 100" +:+ String nl ""; "output foo"].
Proof. reflexivity. Qed.
Example readlines_ex : readlines ("ab" +:+ String nl "cd") = ["ab" +:+ String nl ""; "cd"].
Proof. reflexivity. Qed.
Example replace_ex : py_replace "abcbc" "bc" "X" = "aXX" /\ py_replace "ab" "" "X" = "XaXbX".
Proof. split; reflexivity. Qed.
Example word_ex : word_occurs "nevents" "set run_card nevents 200" = true /\
  word_occurs "nevents" "output genevents" = false /\ word_occurs "a" "a" = true.
Proof. repeat split; reflexivity. Qed.
Example regex_ex : regex_search "nevents " ("set nevents 200" +:+ String nl "") = Some "200"
  /\ regex_search "nevents " ("nevents" +:+ String nl "") = None.
Proof. split; reflexivity. Qed.

Example splitext_ex : splitext "a/b.c.txt" = ("a/b.c", ".txt") /\
  splitext ".bashrc" = (".bashrc", "") /\ splitext "a.d/b" = ("a.d/b", "") /\
  basename "/x/y/z.hepmc" = "z.hepmc".
Proof. repeat split; reflexivity. Qed.

Example plan_scenario :
  match create_dag ggh_args "8" 100%Z with
  | Ok (jobs, _) => map output_files jobs
  | Err _ => []
  end = [["ggh_mass8_13TeV_n100_seed1.hepmc.gz"];
         ["ggh_mass8_13TeV_n100_seed2.hepmc.gz"];
         ["ggh_mass8_13TeV_n100_seed3.hepmc.gz"]].
Proof. vm_compute. reflexivity. Qed.

(** * Properties *)

(** ** Basic facts on the Python primitives *)

Lemma py_in_spec x l : py_in x l = true <-> x ∈ l.
Proof.
  unfold py_in. rewrite existsb_exists, list_elem_of_In. split.
  - intros (y & Hy & Heq). apply String.eqb_eq in Heq. subst. done.
  - intros H. exists x. split; [done|]. apply String.eqb_refl.
Qed.

Lemma py_in_false x l : py_in x l = false <-> x ∉ l.
Proof.
  rewrite <- py_in_spec. destruct (py_in x l); split; congruence.
Qed.

Lemma py_index_split pre x post :
  x ∉ pre -> py_index x (pre ++ x :: post) = Ok (length pre).
Proof.
  induction pre as [|y pre IH]; intros Hx; simpl.
  - rewrite String.eqb_refl. done.
  - destruct (String.eqb_spec x y) as [->|Hne].
    + exfalso. apply Hx. left.
    + rewrite IH; [done|]. intros H. apply Hx. right. done.
Qed.

Lemma py_last_Some l v : last l = Some v -> py_last l = Ok v.
Proof. unfold py_last. intros ->. done. Qed.

Lemma last_split_ne (pre : list string) x post :
  last (pre ++ x :: post) <> Some x -> exists t post', post = t :: post'.
Proof.
  destruct post as [|t post']; [|eauto].
  rewrite last_snoc. done.
Qed.

Lemma last_app_cons_ne (pre : list string) x post :
  exists v, last (pre ++ x :: post) = Some v.
Proof.
  destruct (last (pre ++ x :: post)) eqn:E; [eauto|].
  apply last_None in E. destruct pre; simpl in E; discriminate.
Qed.

(** [get_option_in_args] at the first occurrence of the flag. *)
Lemma get_option_split pre f post :
  f ∉ pre ->
  get_option_in_args (pre ++ f :: post) f =
    if decide (last (pre ++ f :: post) = Some f) then Ok None
    else match post with
         | [] => Ok None
         | t :: _ => if startswith t "-" then Ok None else Ok (Some t)
         end.
Proof.
  intros Hf. unfold get_option_in_args.
  assert (py_in f (pre ++ f :: post) = true) as ->.
  { apply py_in_spec. set_solver. }
  simpl.
  destruct (last_app_cons_ne pre f post) as [l Hl].
  rewrite (py_last_Some _ _ Hl). simpl. rewrite Hl.
  destruct (String.eqb_spec f l) as [<-|Hne].
  - rewrite decide_True; done.
  - rewrite decide_False by congruence.
    rewrite py_index_split by done. simpl.
    unfold py_getitem.
    rewrite lookup_app_r by lia.
    replace (S (length pre) - length pre) with 1 by lia. simpl.
    destruct post as [|t post'].
    + rewrite last_snoc in Hl. congruence.
    + simpl. destruct (startswith t "-"); done.
Qed.

Lemma get_option_absent v f : f ∉ v -> get_option_in_args v f = Err KeyError.
Proof.
  intros H. unfold get_option_in_args. apply py_in_false in H. rewrite H. done.
Qed.

Lemma get_option_last v f : last v = Some f -> get_option_in_args v f = Ok None.
Proof.
  intros Hl. assert (f ∈ v) as Hin.
  { apply last_Some_elem_of. done. }
  destruct (list_elem_of_split_l _ _ Hin) as (pre & post & -> & Hpre).
  rewrite get_option_split by done. rewrite decide_True by done. done.
Qed.

(** [get_option_in_args] returns a value only as the token after the first
    occurrence of the flag. *)
Lemma get_option_Some_inv v f x :
  get_option_in_args v f = Ok (Some x) ->
  exists pre post, v = pre ++ f :: x :: post /\ (f ∉ pre) /\
    (last v <> Some f) /\ startswith x "-" = false.
Proof.
  intros H.
  destruct (decide (f ∈ v)) as [Hin|Hnin].
  2:{ rewrite get_option_absent in H by done. discriminate. }
  destruct (list_elem_of_split_l _ _ Hin) as (pre & post & -> & Hpre).
  rewrite get_option_split in H by done.
  destruct (decide _) as [|Hl]; [discriminate|].
  destruct post as [|t post']; [discriminate|].
  destruct (startswith t "-") eqn:Ht; [discriminate|].
  injection H as ->. exists pre, post'. done.
Qed.

Lemma set_option_replace pre f x post y :
  f ∉ pre -> last (pre ++ f :: x :: post) <> Some f ->
  startswith x "-" = false -> x <> "" ->
  set_option_in_args (pre ++ f :: x :: post) f y = Ok (pre ++ f :: y :: post).
Proof.
  intros Hpre Hl Hx Hne. unfold set_option_in_args.
  rewrite get_option_split by done. rewrite decide_False by done.
  rewrite Hx. simpl.
  assert (String.eqb x "" = false) as -> by (apply String.eqb_neq; done).
  simpl. rewrite py_index_split by done. simpl.
  unfold py_setitem. rewrite length_app. simpl.
  rewrite decide_True by lia.
  rewrite insert_app_r_alt by lia.
  replace (S (length pre) - length pre) with 1 by lia. done.
Qed.

(** ** C5: setting a flag's value, then reading it back *)

(** C5, as stated, fails: a new value starting with [-] (a negative
    number) is read back as "no value". *)
Lemma set_then_get_negative_value :
  get_option_in_args ["--mass"; "8"] "--mass" = Ok (Some "8") /\
  set_option_in_args ["--mass"; "8"] "--mass" "-5" = Ok ["--mass"; "-5"] /\
  get_option_in_args ["--mass"; "-5"] "--mass" = Ok None.
Proof. repeat split; reflexivity. Qed.

(** C5 (amended): if [get_option_in_args v f] returns a non-empty value
    [x], and the new value [y] does not start with [-] and differs from
    the flag, then [set_option_in_args v f y] replaces [x] by [y] in place
    and [get_option_in_args] then returns [y]. *)
Theorem set_then_get_option (v : list string) (f x y : string) :
  get_option_in_args v f = Ok (Some x) -> x <> "" ->
  startswith y "-" = false -> y <> f ->
  exists pre post,
    v = pre ++ f :: x :: post /\
    set_option_in_args v f y = Ok (pre ++ f :: y :: post) /\
    get_option_in_args (pre ++ f :: y :: post) f = Ok (Some y).
Proof.
  intros Hget Hx Hy Hyf.
  destruct (get_option_Some_inv _ _ _ Hget) as (pre & post & -> & Hpre & Hl & Hxd).
  exists pre, post. split; [done|]. split.
  - apply set_option_replace; done.
  - rewrite get_option_split by done.
    rewrite decide_False.
    + rewrite Hy. done.
    + rewrite last_app_cons, last_cons_cons.
      rewrite last_app_cons, last_cons_cons in Hl.
      destruct post as [|t post'].
      * simpl. congruence.
      * rewrite last_cons_cons in Hl |- *. done.
Qed.

Lemma set_then_get_option_witness :
  get_option_in_args ["--card"; "c.txt"; "--mass"; "8"; "-n"; "10"] "--mass"
    = Ok (Some "8") /\
  exists pre post,
    ["--card"; "c.txt"; "--mass"; "8"; "-n"; "10"] = pre ++ "--mass" :: "8" :: post /\
    set_option_in_args ["--card"; "c.txt"; "--mass"; "8"; "-n"; "10"] "--mass" "9"
      = Ok (pre ++ "--mass" :: "9" :: post) /\
    get_option_in_args (pre ++ "--mass" :: "9" :: post) "--mass" = Ok (Some "9").
Proof.
  split; [reflexivity|].
  apply (set_then_get_option _ "--mass" "8" "9");
    [reflexivity | discriminate | reflexivity | discriminate].
Defined.

(** ** C6: reading a flag's value *)

(** C6, as stated, fails: [--mass] takes a value and [-5] is that value,
    not a flag, yet nothing is returned, because the code has no schema
    and treats every token starting with [-] as a flag. *)
Lemma get_option_negative_value :
  get_option_in_args ["--mass"; "-5"] "--mass" = Ok None.
Proof. reflexivity. Qed.

(** C6 (amended): [KeyError] is raised exactly when the flag is absent;
    [None] is returned when the last token equals the flag; otherwise the
    token [t] after the first occurrence of the flag is returned, unless
    it starts with [-], in which case [None] is returned. *)
Theorem get_option_in_args_cases (v : list string) (f : string) :
  (get_option_in_args v f = Err KeyError <-> f ∉ v) /\
  (last v = Some f -> get_option_in_args v f = Ok None) /\
  (forall pre t post, v = pre ++ f :: t :: post -> f ∉ pre ->
     last v <> Some f ->
     get_option_in_args v f = if startswith t "-" then Ok None else Ok (Some t)).
Proof.
  split; [|split].
  - split; [|apply get_option_absent].
    intros H Hin.
    destruct (list_elem_of_split_l _ _ Hin) as (pre & post & -> & Hpre).
    rewrite get_option_split in H by done.
    destruct (decide _); [discriminate|].
    destruct post as [|t post']; [discriminate|].
    destruct (startswith t "-"); discriminate.
  - apply get_option_last.
  - intros pre t post -> Hpre Hl.
    rewrite get_option_split by done. rewrite decide_False by done. done.
Qed.

Lemma get_option_in_args_cases_witness :
  (get_option_in_args ["--foo"; "bar"; "--man"] "--fish" = Err KeyError <->
     "--fish" ∉ ["--foo"; "bar"; "--man"]) /\
  (last ["--foo"; "bar"; "--man"] = Some "--man" ->
     get_option_in_args ["--foo"; "bar"; "--man"] "--man" = Ok None) /\
  (forall pre t post, ["--foo"; "bar"; "--man"] = pre ++ "--foo" :: t :: post ->
     "--foo" ∉ pre -> last ["--foo"; "bar"; "--man"] <> Some "--foo" ->
     get_option_in_args ["--foo"; "bar"; "--man"] "--foo"
       = if startswith t "-" then Ok None else Ok (Some t)).
Proof.
  destruct (get_option_in_args_cases ["--foo"; "bar"; "--man"] "--fish") as [H1 _].
  destruct (get_option_in_args_cases ["--foo"; "bar"; "--man"] "--man") as [_ [H2 _]].
  destruct (get_option_in_args_cases ["--foo"; "bar"; "--man"] "--foo") as [_ [_ H3]].
  split; [exact H1|]. split; [exact H2|]. exact H3.
Defined.

(** ** C10: setting a flag whose current value is the empty string *)

(** C10, as stated, fails when the flag also occurs as the last token:
    then the value is appended at the end. *)
Lemma set_option_empty_value_duplicate_flag :
  get_option_in_args ["--hepmc"; ""; "--hepmc"] "--hepmc" = Ok None /\
  set_option_in_args ["--hepmc"; ""; "--hepmc"] "--hepmc" "out.hepmc"
    = Ok ["--hepmc"; ""; "--hepmc"; "out.hepmc"].
Proof. split; reflexivity. Qed.

(** C10 (amended): when the token after the first occurrence of the flag
    is the empty string and the last token of the vector is not the flag,
    [get_option_in_args] returns that empty string (a false value) and
    [set_option_in_args] returns without error and leaves the vector
    unchanged. *)
Theorem set_option_empty_value_noop (pre post : list string) (f y : string) :
  f ∉ pre -> last (pre ++ f :: "" :: post) <> Some f ->
  get_option_in_args (pre ++ f :: "" :: post) f = Ok (Some "") /\
  set_option_in_args (pre ++ f :: "" :: post) f y = Ok (pre ++ f :: "" :: post).
Proof.
  intros Hpre Hl.
  assert (get_option_in_args (pre ++ f :: "" :: post) f = Ok (Some "")) as Hget.
  { rewrite get_option_split by done. rewrite decide_False by done. done. }
  split; [done|].
  unfold set_option_in_args. rewrite Hget. simpl.
  destruct (last_app_cons_ne pre f ("" :: post)) as [l Hl'].
  rewrite (py_last_Some _ _ Hl'). simpl.
  destruct (String.eqb_spec f l) as [<-|Hne]; [done|].
  rewrite py_index_split by done. simpl.
  unfold py_getitem. rewrite lookup_app_r by lia.
  replace (S (length pre) - length pre) with 1 by lia. done.
Qed.

Lemma set_option_empty_value_noop_witness :
  ("--hepmc" ∉ ["--card"; "c.txt"]) /\
  last (["--card"; "c.txt"] ++ "--hepmc" :: "" :: ["--zip"]) <> Some "--hepmc" /\
  get_option_in_args (["--card"; "c.txt"] ++ "--hepmc" :: "" :: ["--zip"]) "--hepmc"
    = Ok (Some "") /\
  set_option_in_args (["--card"; "c.txt"] ++ "--hepmc" :: "" :: ["--zip"]) "--hepmc" "x"
    = Ok (["--card"; "c.txt"] ++ "--hepmc" :: "" :: ["--zip"]).
Proof.
  assert (H1 : "--hepmc" ∉ ["--card"; "c.txt"]) by (vm_compute; set_solver).
  assert (H2 : last (["--card"; "c.txt"] ++ "--hepmc" :: "" :: ["--zip"])
                 <> Some "--hepmc") by (vm_compute; congruence).
  split; [exact H1|]. split; [exact H2|].
  apply (set_option_empty_value_noop ["--card"; "c.txt"] ["--zip"] "--hepmc" "x" H1 H2).
Defined.

(** ** C1 and C8: [grouper] *)

Section GrouperFacts.
Context {A : Type}.
Implicit Types (it : list A) (fill : A).

(** A tuple of live slots over enough items takes the next [k] items. *)
Lemma izip_fill_full fill k na it :
  k <= length it ->
  izip_fill fill (repeat true k) na it = Some (take k it, repeat true k, na, drop k it).
Proof.
  revert it. induction k as [|k IH]; intros it Hk; simpl; [done|].
  destruct it as [|x it]; simpl in *; [lia|].
  rewrite IH by lia. done.
Qed.

(** A tuple of live slots over [r < k] items pads with [k - r] fill
    values, as long as some slot stays live. *)
Lemma izip_fill_partial fill k na it :
  length it <= k -> k - length it < na ->
  izip_fill fill (repeat true k) na it =
    Some (it ++ repeat fill (k - length it),
          repeat true (length it) ++ repeat false (k - length it),
          na - (k - length it), []).
Proof.
  revert it na. induction k as [|k IH]; intros it na Hk Hna; simpl.
  - destruct it; simpl in *; [|lia]. replace (na - 0) with na by lia. done.
  - destruct it as [|x it]; simpl in *.
    + destruct (Nat.eqb_spec (na - 1) 0) as [E|_]; [lia|].
      rewrite (IH [] (na - 1)) by (simpl; lia). simpl.
      replace (k - 0) with k by lia. replace (na - 1 - k) with (na - S k) by lia.
      done.
    + rewrite IH by lia. done.
Qed.

(** When every live slot is exhausted within the tuple, no tuple is
    produced. *)
Lemma izip_fill_exhausted fill k na it :
  length it < k -> na <= k - length it ->
  izip_fill fill (repeat true k) na it = None.
Proof.
  revert it na. induction k as [|k IH]; intros it na Hk Hna; simpl; [lia|].
  destruct it as [|x it]; simpl in *.
  - destruct (Nat.eqb_spec (na - 1) 0) as [E|E]; [done|].
    rewrite IH by (simpl; lia). done.
  - rewrite IH by lia. done.
Qed.

Lemma izip_fill_after_partial fill r s na :
  1 <= r -> na <= r ->
  izip_fill fill (repeat true r ++ s) na [] = None.
Proof.
  revert na. induction r as [|r IH]; intros na Hr Hna; simpl; [lia|].
  destruct (Nat.eqb_spec (na - 1) 0) as [E|E]; [done|].
  rewrite IH by lia. done.
Qed.

Lemma izip_run_groups fill n fuel it :
  1 <= n -> S (length it) <= fuel ->
  Forall (fun g => length g = n) (izip_run fuel fill (repeat true n) n it) /\
  exists k, k < n /\
    concat (izip_run fuel fill (repeat true n) n it) = it ++ repeat fill k.
Proof.
  intros Hn. revert it. induction fuel as [|fuel IH]; intros it Hfuel; [lia|].
  simpl. rewrite List.repeat_length.
  destruct (Nat.eqb_spec n 0) as [|_]; [lia|]. simpl.
  destruct (decide (n <= length it)) as [Hle|Hgt].
  - rewrite izip_fill_full by done.
    destruct (IH (drop n it)) as [Hall [k [Hk Hcat]]].
    { rewrite length_drop. lia. }
    split.
    + constructor; [|done]. rewrite length_take. lia.
    + exists k. split; [done|]. simpl. rewrite Hcat, app_assoc, take_drop. done.
  - destruct it as [|x it'] eqn:Eit.
    + rewrite izip_fill_exhausted by (simpl; lia). split; [done|].
      exists 0. split; [lia|]. done.
    + rewrite <- Eit in *.
      assert (1 <= length it) by (subst; simpl; lia).
      rewrite izip_fill_partial by lia.
      assert (izip_run fuel fill
                (repeat true (length it) ++ repeat false (n - length it))
                (n - (n - length it)) [] = []) as ->.
      { destruct fuel as [|fuel']; [done|]. simpl.
        replace (n - (n - length it)) with (length it) by lia.
        destruct (Nat.eqb_spec (length it) 0) as [|_]; [lia|].
        rewrite (izip_fill_after_partial fill) by lia.
        destruct (Nat.eqb _ 0); done. }
      split.
      * constructor; [|done]. rewrite length_app, List.repeat_length. lia.
      * exists (n - length it). split; [lia|]. simpl. rewrite app_nil_r. done.
Qed.

Lemma grouper_nonpositive (iterable : list A) (n : Z) (fillvalue : A) :
  (n <= 0)%Z -> grouper iterable n fillvalue = [].
Proof.
  intros Hn. unfold grouper.
  replace (Z.to_nat n) with 0 by lia. done.
Qed.

End GrouperFacts.

Lemma filter_ne_repeat {X} `{EqDecision X} (x : X) k :
  filter (fun y => y <> x) (repeat x k) = [].
Proof.
  induction k as [|k IH]; simpl; [done|].
  rewrite filter_cons_False; [done|]. intros H. apply H. done.
Qed.

Lemma filter_ne_notin {X} `{EqDecision X} (x : X) (l : list X) :
  x ∉ l -> filter (fun y => y <> x) l = l.
Proof.
  induction l as [|y l IH]; intros Hx; simpl; [done|].
  rewrite filter_cons_True.
  - rewrite IH; [done|]. intros H. apply Hx. right. done.
  - intros ->. apply Hx. left.
Qed.

(** C1, as stated, fails when the fill value occurs in the input: the
    input's own [None] is dropped with the padding. *)
Lemma grouper_fill_value_in_input :
  grouper [Some "f1"; None; Some "f2"] 2 None
    = [[Some "f1"; None]; [Some "f2"; None]] /\
  filter (fun x => x <> None) (concat (grouper [Some "f1"; None; Some "f2"] 2 None))
    = [Some "f1"; Some "f2"].
Proof. split; reflexivity. Qed.

(** C1 (amended): for a group size [n >= 1], every group has exactly [n]
    elements, and concatenating the groups gives the input followed by
    [k < n] copies of the fill value (so only the last group is padded);
    hence, when the fill value does not occur in the input, the non-fill
    elements of the output are the input, in order. *)
Theorem grouper_partition {X} `{EqDecision X} (iterable : list X) (n : Z)
    (fillvalue : X) :
  (1 <= n)%Z ->
  Forall (fun g => length g = Z.to_nat n) (grouper iterable n fillvalue) /\
  (exists k, k < Z.to_nat n /\
     concat (grouper iterable n fillvalue) = iterable ++ repeat fillvalue k) /\
  (fillvalue ∉ iterable ->
     filter (fun x => x <> fillvalue) (concat (grouper iterable n fillvalue))
       = iterable).
Proof.
  intros Hn. unfold grouper.
  destruct (izip_run_groups fillvalue (Z.to_nat n) (S (length iterable)) iterable)
    as [Hall [k [Hk Hcat]]]; [lia|lia|].
  split; [done|]. split; [eauto|].
  intros Hnotin. rewrite Hcat, filter_app, filter_ne_repeat, app_nil_r.
  apply filter_ne_notin. done.
Qed.

Lemma grouper_partition_witness :
  (1 <= 2)%Z /\
  Forall (fun g => length g = 2) (grouper ["f1"; "f2"; "f3"] 2 "") /\
  (exists k, k < 2 /\ concat (grouper ["f1"; "f2"; "f3"] 2 "") = ["f1"; "f2"; "f3"] ++ repeat "" k) /\
  ("" ∉ ["f1"; "f2"; "f3"] ->
     filter (fun x => x <> "") (concat (grouper ["f1"; "f2"; "f3"] 2 "")) = ["f1"; "f2"; "f3"]).
Proof.
  split; [lia|].
  apply (grouper_partition ["f1"; "f2"; "f3"] 2 ""). lia.
Defined.

(** C8, as stated, fails: a group size below 1 raises nothing; the
    result is simply empty. *)
Lemma grouper_zero_size :
  grouper ["f1"; "f2"] 0 "" = [] /\ grouper ["f1"; "f2"] (-1) "" = [].
Proof. split; reflexivity. Qed.

(** C8 (amended): for a group size [n < 1], [grouper] raises no error and
    yields no group at all, whatever the input. *)
Theorem grouper_nonpositive_empty {X} (iterable : list X) (n : Z) (fillvalue : X) :
  (n < 1)%Z -> grouper iterable n fillvalue = [].
Proof. intros Hn. apply grouper_nonpositive. lia. Qed.

Lemma grouper_nonpositive_empty_witness :
  (0 < 1)%Z /\ grouper ["f1"; "f2"; "f3"] 0 "" = [].
Proof. split; [lia|]. apply grouper_nonpositive_empty. lia. Defined.

(** ** C3 and C7: [make_card] *)

Lemma word_occurs_go_contains b name line :
  word_occurs_go b name line = true -> contains name line = true.
Proof.
  revert b. induction line as [|c line IH]; intros b H; simpl in *.
  - apply orb_true_iff in H as [H|H]; [|discriminate].
    apply andb_true_iff in H as [H _]. apply andb_true_iff in H as [_ H].
    rewrite H. done.
  - apply orb_true_iff in H as [H|H].
    + apply andb_true_iff in H as [H _]. apply andb_true_iff in H as [_ H].
      rewrite H. done.
    + apply IH in H. rewrite H, orb_true_r. done.
Qed.

Lemma word_occurs_contains name line :
  word_occurs name line = true -> contains name line = true.
Proof. apply word_occurs_go_contains. Qed.

Lemma make_card_line_error name value line e :
  make_card_line name value line = Err e -> e = AttributeError.
Proof.
  unfold make_card_line. destruct (_ || _ || _); [discriminate|].
  destruct (regex_search _ _); congruence.
Qed.

Lemma make_card_line_malformed name value line :
  line <> "" -> startswith line "#" = false -> contains name line = true ->
  regex_search (name +:+ " ") line = None ->
  make_card_line name value line = Err AttributeError.
Proof.
  intros Hne Hc Hin Hre. unfold make_card_line.
  assert (String.eqb line "" = false) as -> by (apply String.eqb_neq; done).
  rewrite Hc, Hin, Hre. done.
Qed.

(** [mapM] stops at the first failing element. *)
Lemma mapM_fail {X Y} (f : X -> result Y) (l : list X) (E : exn) :
  (forall x e, f x = Err e -> e = E) ->
  (exists x, x ∈ l /\ f x = Err E) -> mapM f l = Err E.
Proof.
  intros Hall (x & Hx & Hfx). induction l as [|y l IH]; simpl.
  - inversion Hx.
  - destruct (f y) as [b|e] eqn:Hy; simpl.
    + apply elem_of_cons in Hx as [->|Hx]; [congruence|].
      rewrite IH by done. done.
    + rewrite (Hall _ _ Hy). done.
Qed.

Lemma make_card_fields_app t pre post :
  make_card_fields t (pre ++ post) =
    let* t' := make_card_fields t pre in make_card_fields t' post.
Proof.
  revert t. induction pre as [|f pre IH]; intros t; simpl; [done|].
  destruct (make_card_field t f); simpl; [apply IH|done].
Qed.

(** Rendering errors leave the file system as it was. *)
Lemma make_card_error_frame fs in_card out_card fields e fs' :
  make_card fs in_card out_card fields = (Err e, fs') -> fs' = fs.
Proof.
  unfold make_card. destruct (fs !! in_card); [|congruence].
  destruct (make_card_fields _ _); congruence.
Qed.

(** If, when the field [name] is applied, the card being rendered has
    a non-empty, non-comment line containing [name] as a word but no
    [name ] followed by a value text up to the end of the line, then
    [make_card] raises an error ([AttributeError]) and the file system is
    unchanged: the output card is neither created nor modified. *)
Theorem make_card_malformed_line_aborts (fs : filesystem)
    (in_card out_card content : string)
    (done_fields rest : list (string * string)) (name value : string)
    (card : list string) :
  fs !! in_card = Some content ->
  make_card_fields (readlines content) done_fields = Ok card ->
  (exists line, line ∈ card /\ line <> "" /\ startswith line "#" = false /\
     word_occurs name line = true /\ regex_search (name +:+ " ") line = None) ->
  make_card fs in_card out_card (done_fields ++ (name, value) :: rest)
    = (Err AttributeError, fs).
Proof.
  intros Hfs Hdone (line & Hl & Hne & Hc & Hw & Hre).
  unfold make_card. rewrite Hfs, make_card_fields_app, Hdone. simpl.
  unfold make_card_field. simpl.
  rewrite (mapM_fail _ _ AttributeError).
  - done.
  - intros x e. apply make_card_line_error.
  - exists line. split; [done|].
    apply make_card_line_malformed; auto using word_occurs_contains.
Qed.

Lemma make_card_malformed_line_aborts_witness :
  (<["card.txt" := card_in]> (∅ : filesystem)) !! "card.txt" = Some card_in /\
  make_card_fields (readlines card_in) [] = Ok (readlines card_in) /\
  (exists line, line ∈ readlines card_in /\ line <> "" /\
     startswith line "#" = false /\ word_occurs "nevents" line = true /\
     regex_search ("nevents" +:+ " ") line = None) /\
  make_card (<["card.txt" := card_in]> ∅) "card.txt" "new.txt"
      ([] ++ ("nevents", "500") :: [("iseed", "3")])
    = (Err AttributeError, <["card.txt" := card_in]> ∅).
Proof.
  assert (H1 : (<["card.txt" := card_in]> (∅ : filesystem)) !! "card.txt"
               = Some card_in) by (vm_compute; reflexivity).
  assert (H2 : make_card_fields (readlines card_in) [] = Ok (readlines card_in))
    by reflexivity.
  assert (H3 : exists line, line ∈ readlines card_in /\ line <> "" /\
     startswith line "#" = false /\ word_occurs "nevents" line = true /\
     regex_search ("nevents" +:+ " ") line = None).
  { exists ("set run_card nevents" +:+ String nl "").
    split; [vm_compute; set_solver|].
    split; [vm_compute; congruence|]. repeat split; reflexivity. }
  split; [exact H1|]. split; [exact H2|]. split; [exact H3|].
  exact (make_card_malformed_line_aborts _ "card.txt" "new.txt" card_in [] _
           "nevents" "500" _ H1 H2 H3).
Defined.

(** C7 does not hold: a line holding the field name as a word followed
    by a space and no value text matches [name + r' (.STAR)$'] with an
    empty group, so [line.replace('', value)] inserts the value before
    every character of the line; no error is raised and the corrupted
    card is written to the output file. *)
Lemma make_card_empty_value_corrupts :
  word_occurs "nevents" ("set run_card nevents " +:+ String nl "") = true /\
  regex_search ("nevents" +:+ " ") ("set run_card nevents " +:+ String nl "") = Some "" /\
  make_card (<["card.txt" := ("set run_card nevents " +:+ String nl "")]> ∅)
      "card.txt" "new.txt" [("nevents", "500")] =
    (Ok tt,
     <["new.txt" := ("500s500e500t500 500r500u500n500_500c500a500r500d500 500n500e500v500e500n500t500s500 "
                      +:+ "500" +:+ String nl "500")]>
       (<["card.txt" := ("set run_card nevents " +:+ String nl "")]> ∅)).
Proof. split; [reflexivity|]. split; [reflexivity|]. vm_compute. reflexivity. Qed.

(** C3 does not hold: a line where the field name occurs only inside a
    longer word is rewritten, against the [make_card] docstring ("output
    genevents" would not match); and [str.replace] rewrites every
    occurrence of the old value text, also before the name. *)
Lemma make_card_substring_match :
  word_occurs "nevents" ("set run_card genevents 200" +:+ String nl "") = false /\
  make_card_fields ["set run_card genevents 200" +:+ String nl ""] [("nevents", "500")]
    = Ok ["set run_card genevents 500" +:+ String nl ""] /\
  make_card_fields ["set 200 nevents 200" +:+ String nl ""] [("nevents", "500")]
    = Ok ["set 500 nevents 500" +:+ String nl ""].
Proof. repeat split; reflexivity. Qed.

(** ** JobPlanner: the base argument vector *)

Lemma mapM_Forall2 {X Y} (f : X -> result Y) (l : list X) (ys : list Y) :
  mapM f l = Ok ys -> Forall2 (fun x y => f x = Ok y) l ys.
Proof.
  revert ys. induction l as [|x l IH]; intros ys H; simpl in H.
  - injection H as <-. constructor.
  - destruct (f x) as [y|e] eqn:Hf; simpl in H; [|discriminate].
    destruct (mapM f l) as [ys'|e] eqn:Hm; simpl in H; [|discriminate].
    injection H as <-. constructor; [done|]. apply IH. done.
Qed.

(** A base vector with a value after [--mass]: planning 3 seeds at mass 9
    returns the caller's namespace with its [args.args] changed. *)
Lemma create_dag_mutates_base :
  exists jobs args',
    create_dag mass_base_args "9" 100%Z = Ok (jobs, args') /\
    args_args args' = ["--card"; "c.txt"; "--mass"; "9"] /\
    args_args args' <> ["--card"; "c.txt"; "--mass"; "8"].
Proof.
  eexists _, _. split; [vm_compute; reflexivity|]. split; [reflexivity|].
  discriminate.
Qed.

(** C9 (amended).  [create_dag] writes the mass into the caller's base
    vector itself, not into a copy: the value after [--mass] is replaced
    when there is one, the value is appended after a trailing [--mass], and
    [--mass] with the value is appended when the flag is absent.  The other
    fields of the namespace are kept, and each job is built by
    [generate_pythia_job] from that updated base, one job per seed of the
    range; the seed and the output names go only into the job's own copy. *)
Theorem create_dag_base_update (args : py8_args) (mass : string)
    (num_events : Z) (jobs : list job) (args' : py8_args) :
  create_dag args mass num_events = Ok (jobs, args') ->
  channel args' = channel args /\ energy args' = energy args /\
  oDir args' = oDir args /\ jobIdRange args' = jobIdRange args /\
  (("--mass" ∉ args_args args) ->
     args_args args' = args_args args ++ ["--mass"; mass]) /\
  (last (args_args args) = Some "--mass" ->
     args_args args' = args_args args ++ [mass]) /\
  (forall pre x post,
     args_args args = pre ++ "--mass" :: x :: post ->
     ("--mass" ∉ pre) -> last (args_args args) <> Some "--mass" ->
     startswith x "-" = false -> x <> "" ->
     args_args args' = pre ++ "--mass" :: mass :: post) /\
  Forall2 (fun j jb => generate_pythia_job args' j mass num_events = Ok jb)
    (zrange (jobIdRange args).1 (jobIdRange args).2) jobs.
Proof.
  intros H. unfold create_dag in H.
  destruct (py_in "--mass" (args_args args)) eqn:Hin.
  - destruct (set_option_in_args (args_args args) "--mass" mass) as [base|e]
      eqn:Hset; simpl in H; [|discriminate].
    destruct (mapM _ _) as [js|e] eqn:Hm; simpl in H; [|discriminate].
    injection H as <- <-. simpl.
    split_and!; try done.
    + intros Hn. apply py_in_false in Hn. congruence.
    + intros Hl. unfold set_option_in_args in Hset.
      rewrite get_option_last in Hset by done. simpl in Hset.
      rewrite (py_last_Some _ _ Hl) in Hset. simpl in Hset.
      congruence.
    + intros pre x post Hv Hpre Hl Hx Hne.
      rewrite Hv in Hset. rewrite Hv in Hl.
      rewrite set_option_replace in Hset by done. congruence.
    + apply mapM_Forall2. done.
  - simpl in H.
    destruct (mapM _ _) as [js|e] eqn:Hm; simpl in H; [|discriminate].
    injection H as <- <-. simpl.
    split_and!; try done.
    + intros Hl. apply last_Some_elem_of, py_in_spec in Hl. congruence.
    + intros pre x post Hv. apply py_in_false in Hin. rewrite Hv in Hin.
      set_solver.
    + apply mapM_Forall2. done.
Qed.

Lemma create_dag_base_update_witness :
  exists r, create_dag mass_base_args "9" 100%Z = Ok r /\
    args_args r.2 = ["--card"; "c.txt"; "--mass"; "9"].
Proof.
  destruct (create_dag mass_base_args "9" 100%Z) as [[jobs a']|e] eqn:Hc;
    [|vm_compute in Hc; discriminate].
  exists (jobs, a'). split; [reflexivity|].
  destruct (create_dag_base_update mass_base_args "9" 100%Z jobs a' Hc)
    as (_ & _ & _ & _ & _ & _ & Hrep & _).
  apply (Hrep ["--card"; "c.txt"] "8" []);
    [reflexivity | | | reflexivity | discriminate].
  - rewrite elem_of_cons, elem_of_cons, elem_of_nil.
    intros [Hx|[Hx|Hx]]; [discriminate|discriminate|done].
  - simpl. discriminate.
Defined.

(** ** NamingScheme: strings *)

Lemma str_app_nil (b : string) : "" +:+ b = b.
Proof. reflexivity. Qed.

Lemma str_app_cons (c : ascii) (a b : string) :
  String c a +:+ b = String c (a +:+ b).
Proof. reflexivity. Qed.

Lemma str_app_assoc (a b c : string) : (a +:+ b) +:+ c = a +:+ (b +:+ c).
Proof.
  induction a as [|x a IH]; [reflexivity|].
  rewrite !str_app_cons, IH. reflexivity.
Qed.

Lemma str_length_app (a b : string) :
  String.length (a +:+ b) = String.length a + String.length b.
Proof.
  induction a as [|x a IH]; [reflexivity|].
  rewrite str_app_cons. simpl. rewrite IH. reflexivity.
Qed.

Lemma str_app_inj_l (a b c : string) : a +:+ b = a +:+ c -> b = c.
Proof.
  induction a as [|x a IH]; [done|].
  rewrite !str_app_cons. intros H. injection H. done.
Qed.

Lemma str_app_inj_r (a b c : string) : a +:+ c = b +:+ c -> a = b.
Proof.
  revert b. induction a as [|x a IH]; intros [|y b] H.
  - done.
  - rewrite str_app_nil in H. apply (f_equal String.length) in H.
    rewrite str_app_cons in H. simpl in H. rewrite str_length_app in H. lia.
  - rewrite str_app_nil in H. apply (f_equal String.length) in H.
    rewrite str_app_cons in H. simpl in H. rewrite str_length_app in H. lia.
  - rewrite !str_app_cons in H. injection H as -> H. f_equal. apply IH. done.
Qed.

Lemma str_has_app (c : ascii) (a b : string) :
  str_has c (a +:+ b) = str_has c a || str_has c b.
Proof.
  induction a as [|x a IH]; [reflexivity|].
  rewrite str_app_cons. simpl. rewrite IH. apply orb_assoc.
Qed.

Lemma str_has_other_app (c : ascii) (a b : string) :
  str_has_other c (a +:+ b) = str_has_other c a || str_has_other c b.
Proof.
  induction a as [|x a IH]; [reflexivity|].
  rewrite str_app_cons. simpl. rewrite IH. apply orb_assoc.
Qed.

Lemma str_has_cons (c d : ascii) (s : string) :
  str_has c (String d s) = Ascii.eqb c d || str_has c s.
Proof. reflexivity. Qed.

Lemma str_has_self (c : ascii) (s : string) : str_has c (String c s) = true.
Proof. simpl. rewrite Ascii.eqb_refl. reflexivity. Qed.

(** Two strings that are split at the last occurrence of [c]. *)
Lemma str_split_last (c : ascii) (x1 y1 x2 y2 : string) :
  str_has c y1 = false -> str_has c y2 = false ->
  x1 +:+ String c y1 = x2 +:+ String c y2 -> x1 = x2 /\ y1 = y2.
Proof.
  intros H1 H2. revert x2.
  induction x1 as [|a x1 IH]; intros [|b x2] H;
    rewrite ?str_app_nil, ?str_app_cons in H.
  - injection H as ->. done.
  - injection H as <- H.
    rewrite H, str_has_app, str_has_self, orb_true_r in H1. discriminate.
  - injection H as -> H.
    rewrite <- H, str_has_app, str_has_self, orb_true_r in H2. discriminate.
  - injection H as <- H. destruct (IH x2 H) as [-> ->]. done.
Qed.

Lemma rfind_absent (c : ascii) (s : string) :
  str_has c s = false -> rfind c s = None.
Proof.
  induction s as [|d s IH]; [done|]. simpl.
  intros H. apply orb_false_iff in H as [Hd Hs]. rewrite IH, Hd by done.
  reflexivity.
Qed.

Lemma rfind_last (c : ascii) (a b : string) :
  str_has c b = false -> rfind c (a +:+ String c b) = Some (String.length a).
Proof.
  intros Hb. induction a as [|d a IH].
  - simpl. rewrite rfind_absent, Ascii.eqb_refl by done. reflexivity.
  - rewrite str_app_cons. simpl. rewrite IH. reflexivity.
Qed.

Lemma str_take_app (a b : string) : str_take (String.length a) (a +:+ b) = a.
Proof.
  induction a as [|x a IH]; [reflexivity|].
  rewrite str_app_cons. simpl. rewrite IH. reflexivity.
Qed.

Lemma str_drop_app (a b : string) : str_drop (String.length a) (a +:+ b) = b.
Proof.
  induction a as [|x a IH]; [reflexivity|].
  rewrite str_app_cons. simpl. exact IH.
Qed.

(** The decimal form of an integer is made of digits and [-]. *)
Lemma pretty_N_go_has (c : ascii) (x : N) (s : string) :
  (forall y, pretty_N_char y <> c) -> str_has c s = false ->
  str_has c (pretty_N_go x s) = false.
Proof.
  intros Hc. revert s. induction (N.lt_wf_0 x) as [x _ IH]; intros s Hs.
  destruct (decide (x = 0)%N) as [->|Hx].
  - rewrite pretty_N_go_0. done.
  - rewrite pretty_N_go_step by lia. apply IH.
    + apply N.div_lt; lia.
    + simpl. rewrite Hs, orb_false_r. apply Ascii.eqb_neq.
      intros Heq. apply (Hc (x `mod` 10)%N). done.
Qed.

Lemma pretty_Z_has (c : ascii) (z : Z) :
  (forall y, pretty_N_char y <> c) -> c <> "-"%char ->
  str_has c (pretty z) = false.
Proof.
  intros Hc Hd.
  assert (forall p : positive, str_has c (pretty p) = false) as Hp.
  { intros p.
    change (str_has c (pretty p)) with (str_has c (pretty_N_go (Npos p) "")).
    apply pretty_N_go_has; done. }
  destruct z as [|p|p]; unfold pretty, pretty_Z.
  - simpl. rewrite orb_false_r. apply Ascii.eqb_neq.
    intros Heq. apply (Hc 0%N). done.
  - apply Hp.
  - change (str_has c ("-" +:+ pretty p))
      with (Ascii.eqb c "-" || str_has c (pretty p)).
    rewrite Hp, orb_false_r. apply Ascii.eqb_neq. congruence.
Qed.

Ltac no_digit := intros y; unfold pretty_N_char; repeat case_match; discriminate.

Lemma pretty_Z_no_underscore (z : Z) : str_has "_" (pretty z) = false.
Proof. apply pretty_Z_has; [no_digit | discriminate]. Qed.

Lemma pretty_Z_no_slash (z : Z) : str_has "/" (pretty z) = false.
Proof. apply pretty_Z_has; [no_digit | discriminate]. Qed.

(** The stem that [splitext] recovers from a generated name. *)
Lemma generated_stem (channel mass : string) (energy num_events : Z)
    (fmt : string) :
  str_has "/" channel = false -> str_has "/" mass = false ->
  str_has "/" fmt = false -> str_has "." fmt = false ->
  (splitext (basename (generate_filename channel mass energy num_events fmt))).1
  = channel +:+ "_mass" +:+ mass +:+ "_" +:+ pretty energy +:+ "TeV_n" +:+
    pretty num_events.
Proof.
  intros Hc Hm Hf Hf'.
  set (stem := channel +:+ "_mass" +:+ mass +:+ "_" +:+ pretty energy +:+
               "TeV_n" +:+ pretty num_events).
  assert (generate_filename channel mass energy num_events fmt
          = stem +:+ String "." fmt) as Hgf.
  { unfold generate_filename, stem. rewrite !str_app_assoc. reflexivity. }
  assert (rfind "/" (stem +:+ String "." fmt) = None) as Hslash.
  { apply rfind_absent. unfold stem.
    rewrite !str_has_app, !str_has_cons, Hc, Hm, Hf, !pretty_Z_no_slash.
    reflexivity. }
  unfold basename. rewrite Hgf, Hslash.
  unfold splitext. rewrite Hslash, rfind_last by done.
  simpl Nat.leb. rewrite Nat.sub_0_r. simpl str_drop.
  rewrite str_take_app.
  assert (str_has_other "." stem = true) as ->.
  { unfold stem. rewrite str_has_other_app. apply orb_true_iff. right.
    reflexivity. }
  reflexivity.
Qed.

(** ** JobPlanner: the name recorded for a valueless [--hepmc] *)

Lemma set_option_insert pre f t rest y l :
  f ∉ pre -> startswith t "-" = true ->
  last (pre ++ f :: t :: rest) = Some l -> l <> f ->
  set_option_in_args (pre ++ f :: t :: rest) f y = Ok (pre ++ f :: y :: t :: rest).
Proof.
  intros Hpre Ht Hl Hlf. unfold set_option_in_args.
  rewrite get_option_split by done.
  rewrite decide_False by congruence. rewrite Ht. simpl.
  rewrite (py_last_Some _ _ Hl). simpl.
  destruct (String.eqb_spec f l) as [->|_]; [congruence|].
  rewrite py_index_split by done. simpl.
  unfold py_getitem. rewrite lookup_app_r by lia.
  replace (S (length pre) - length pre) with 1 by lia. simpl. rewrite Ht.
  unfold py_insert.
  replace (pre ++ f :: t :: rest) with ((pre ++ [f]) ++ t :: rest)
    by (rewrite <- app_assoc; reflexivity).
  replace (S (length pre)) with (length (pre ++ [f]))
    by (rewrite length_app; simpl; lia).
  rewrite take_app_length, drop_app_length, <- app_assoc. reflexivity.
Qed.

Lemma pythia_outputs_step args job_index mass num_events fmt fmts exe_args
    out_files :
  pythia_outputs args job_index mass num_events (fmt :: fmts) exe_args out_files
  = if negb (py_in ("--" +:+ fmt) exe_args)
    then pythia_outputs args job_index mass num_events fmts exe_args out_files
    else
      let* cur := get_option_in_args (args_args args) ("--" +:+ fmt) in
      let* exe_args1 :=
        if truthy cur then Ok exe_args
        else set_option_in_args exe_args ("--" +:+ fmt)
               (generate_filename (channel args) mass (energy args)
                  num_events fmt) in
      let* v := get_option_in_args exe_args1 ("--" +:+ fmt) in
      match v with
      | None => Err AttributeError
      | Some v =>
          let out_name :=
            (splitext (basename v)).1 +:+ "_seed" +:+ pretty job_index +:+
            "." +:+ fmt in
          let* exe_args2 := set_option_in_args exe_args1 ("--" +:+ fmt) out_name in
          let out_name :=
            if py_in "--zip" exe_args2 then out_name +:+ ".gz" else out_name in
          pythia_outputs args job_index mass num_events fmts exe_args2
            (out_files ++ [out_name])
      end.
Proof. reflexivity. Qed.

Lemma pythia_outputs_prefix args job_index mass num_events fmts exe_args
    out_files exe_args' out_files' :
  pythia_outputs args job_index mass num_events fmts exe_args out_files
    = Ok (exe_args', out_files') ->
  exists more, out_files' = out_files ++ more.
Proof.
  revert exe_args out_files.
  induction fmts as [|fmt fmts IH]; intros exe_args out_files H; simpl in H.
  - injection H as _ <-. exists []. rewrite app_nil_r. done.
  - destruct (negb _); [apply (IH _ _ H)|].
    destruct (get_option_in_args _ _) as [cur|e]; simpl in H; [|discriminate].
    destruct (if truthy cur then _ else _) as [e1|e]; simpl in H; [|discriminate].
    destruct (get_option_in_args e1 _) as [[v|]|e]; simpl in H; try discriminate.
    destruct (set_option_in_args e1 _ _) as [e2|e]; simpl in H; [|discriminate].
    destruct (IH _ _ H) as [more ->]. rewrite <- app_assoc.
    eexists. reflexivity.
Qed.

Lemma py_in_shift (z : string) pre f x post a b :
  x <> z -> a <> z -> b <> z ->
  py_in z (pre ++ f :: x :: post ++ [a; b]) = py_in z (pre ++ f :: post).
Proof.
  intros Hx Ha Hb. unfold py_in. rewrite !existsb_app. simpl.
  rewrite existsb_app. simpl.
  rewrite (proj2 (String.eqb_neq _ _) (not_eq_sym Hx)).
  rewrite (proj2 (String.eqb_neq _ _) (not_eq_sym Ha)).
  rewrite (proj2 (String.eqb_neq _ _) (not_eq_sym Hb)).
  destruct (existsb _ pre), (String.eqb z f), (existsb _ post); reflexivity.
Qed.

Lemma pretty_Z_ne_flag (z : Z) (c : ascii) (flag : string) :
  (forall y, pretty_N_char y <> c) -> c <> "-"%char -> str_has c flag = true ->
  pretty z <> flag.
Proof.
  intros Hc Hd Hf E. pose proof (pretty_Z_has c z Hc Hd) as Hz.
  rewrite E in Hz. congruence.
Qed.

Lemma underscore_ne (s : string) :
  str_has "_" s = true -> s <> "" /\ s <> "--zip".
Proof. intros H. split; intros E; rewrite E in H; discriminate. Qed.

Lemma prefix_char (d c : ascii) (x : string) :
  String.prefix (String d "") (String c x) = if ascii_dec d c then true else false.
Proof. destruct x; reflexivity. Qed.

Lemma startswith_generated (channel mass : string) (energy num_events : Z)
    (fmt : string) :
  startswith channel "-" = false ->
  startswith (generate_filename channel mass energy num_events fmt) "-" = false.
Proof.
  unfold generate_filename, startswith. intros H.
  destruct channel as [|c s]; [reflexivity|]. rewrite str_app_cons.
  rewrite prefix_char in H |- *. exact H.
Qed.

(** When the base vector has [--hepmc] with no value after it, the first
    output file of a job is [seeded_output_name] of the job's tuple, with
    the [--zip] setting of the base. *)
Lemma generate_pythia_job_hepmc_name (args : py8_args) (job_index : Z)
    (mass : string) (num_events : Z) (jb : job) pre post :
  args_args args = pre ++ "--hepmc" :: post -> ("--hepmc" ∉ pre) ->
  (forall t post', post = t :: post' -> startswith t "-" = true) ->
  startswith (channel args) "-" = false ->
  str_has "/" (channel args) = false -> str_has "/" mass = false ->
  generate_pythia_job args job_index mass num_events = Ok jb ->
  head (output_files jb) =
    Some (seeded_output_name (channel args) mass (energy args) num_events
            "hepmc" job_index (py_in "--zip" (args_args args))).
Proof.
  intros Hb Hpre Hpost Hch Hc Hm H.
  unfold generate_pythia_job, output_formats in H.
  rewrite pythia_outputs_step in H.
  change ("--" +:+ "hepmc") with "--hepmc" in H.
  set (gf := generate_filename (channel args) mass (energy args) num_events
               "hepmc") in *.
  set (stem := (splitext (basename gf)).1).
  set (ON := stem +:+ "_seed" +:+ pretty job_index +:+ "." +:+ "hepmc").
  assert (exists t0 rest, post ++ ["--seed"; pretty job_index] = t0 :: rest /\
            startswith t0 "-" = true) as (t0 & rest & Ht0 & Hs0).
  { destruct post as [|t post0].
    - exists "--seed", [pretty job_index]. done.
    - exists t, (post0 ++ ["--seed"; pretty job_index]).
      split; [done|]. apply (Hpost t post0). done. }
  assert (args_args args ++ ["--seed"; pretty job_index]
          = pre ++ "--hepmc" :: t0 :: rest) as Hexe0.
  { rewrite Hb, <- app_assoc. simpl. rewrite Ht0. done. }
  assert (pretty job_index <> "--hepmc") as Hjh.
  { apply (pretty_Z_ne_flag _ "h"); [no_digit|discriminate|reflexivity]. }
  assert (pretty job_index <> "--zip") as Hjz.
  { apply (pretty_Z_ne_flag _ "z"); [no_digit|discriminate|reflexivity]. }
  assert (last (pre ++ "--hepmc" :: t0 :: rest) = Some (pretty job_index))
    as Hlast.
  { rewrite <- Hexe0. change ["--seed"; pretty job_index]
      with (["--seed"] ++ [pretty job_index]).
    rewrite app_assoc, last_snoc. done. }
  assert (forall x, last (pre ++ "--hepmc" :: x :: t0 :: rest)
                    = Some (pretty job_index)) as Hlast2.
  { intros x. rewrite last_app_cons, !last_cons_cons.
    rewrite last_app_cons, last_cons_cons in Hlast. exact Hlast. }
  assert (get_option_in_args (args_args args) "--hepmc" = Ok None) as Hget.
  { rewrite Hb, get_option_split by done.
    destruct (decide _); [done|].
    destruct post as [|t post0]; [done|]. rewrite (Hpost t post0) by done.
    done. }
  assert (gf <> "" /\ gf <> "--zip") as [Hgf _].
  { unfold gf, generate_filename. apply underscore_ne.
    rewrite str_has_app. apply orb_true_iff. right. reflexivity. }
  assert (ON <> "" /\ ON <> "--zip") as [_ HON].
  { unfold ON. apply underscore_ne.
    rewrite str_has_app. apply orb_true_iff. right. reflexivity. }
  rewrite Hexe0 in H.
  assert (py_in "--hepmc" (pre ++ "--hepmc" :: t0 :: rest) = true) as Hin
    by (apply py_in_spec; set_solver).
  rewrite Hin in H.
  rewrite Hget in H. cbn [negb rbind truthy] in H.
  rewrite (set_option_insert _ _ _ _ _ (pretty job_index)) in H by done.
  cbn [rbind] in H.
  rewrite get_option_split in H by done.
  rewrite decide_False in H by (rewrite Hlast2; congruence).
  assert (startswith gf "-" = false) as Hsgf
    by (apply startswith_generated; done).
  rewrite Hsgf in H.
  cbn [rbind] in H. fold stem in H. fold ON in H.
  rewrite set_option_replace in H;
    [| done | rewrite Hlast2; congruence
     | done | done].
  cbn [rbind] in H.
  assert (py_in "--zip" (pre ++ "--hepmc" :: ON :: t0 :: rest)
          = py_in "--zip" (args_args args)) as Hzip.
  { rewrite <- Ht0, Hb. apply py_in_shift; done. }
  rewrite Hzip in H.
  destruct (pythia_outputs _ _ _ _ _ _ _) as [[e' outs]|e] eqn:Hrest;
    cbn [rbind] in H; [|discriminate].
  apply pythia_outputs_prefix in Hrest as [more ->].
  injection H as <-. reflexivity.
Qed.

(** ** NamingScheme: injectivity of the seeded output names *)

Lemma str_split_last_app (c : ascii) (x1 y1 x2 y2 : string) :
  str_has c y1 = false -> str_has c y2 = false ->
  x1 +:+ (String c "" +:+ y1) = x2 +:+ (String c "" +:+ y2) ->
  x1 = x2 /\ y1 = y2.
Proof. apply str_split_last. Qed.

Lemma seed_tail_inj (a1 a2 f1 f2 : string) (s1 s2 : Z) :
  str_has "." f1 = false -> str_has "." f2 = false ->
  a1 +:+ "_seed" +:+ pretty s1 +:+ "." +:+ f1 =
  a2 +:+ "_seed" +:+ pretty s2 +:+ "." +:+ f2 ->
  a1 = a2 /\ s1 = s2 /\ f1 = f2.
Proof.
  intros Hf1 Hf2 H.
  assert (forall a (s : Z) f, a +:+ "_seed" +:+ pretty s +:+ "." +:+ f =
            (a +:+ "_" +:+ ("seed" +:+ pretty s)) +:+ "." +:+ f) as Hshape.
  { intros. rewrite !str_app_assoc. reflexivity. }
  rewrite !Hshape in H.
  apply str_split_last_app in H as [H ->]; [|done|done].
  apply str_split_last_app in H as [-> H];
    [|rewrite str_has_app, pretty_Z_no_underscore; reflexivity ..].
  apply str_app_inj_l, (inj pretty) in H. done.
Qed.

Lemma stem_inj (c1 m1 c2 m2 : string) (e1 n1 e2 n2 : Z) :
  str_has "_" m1 = false -> str_has "_" m2 = false ->
  c1 +:+ "_mass" +:+ m1 +:+ "_" +:+ pretty e1 +:+ "TeV_n" +:+ pretty n1 =
  c2 +:+ "_mass" +:+ m2 +:+ "_" +:+ pretty e2 +:+ "TeV_n" +:+ pretty n2 ->
  c1 = c2 /\ m1 = m2 /\ e1 = e2 /\ n1 = n2.
Proof.
  intros Hm1 Hm2 H.
  assert (forall c m e n,
            c +:+ "_mass" +:+ m +:+ "_" +:+ pretty (e : Z) +:+ "TeV_n" +:+ pretty (n : Z) =
            ((c +:+ "_" +:+ ("mass" +:+ m)) +:+ "_" +:+ (pretty e +:+ "TeV"))
              +:+ "_" +:+ ("n" +:+ pretty n)) as Hshape.
  { intros. rewrite !str_app_assoc. reflexivity. }
  rewrite !Hshape in H.
  apply str_split_last_app in H as [H Hn];
    [|rewrite str_has_app, pretty_Z_no_underscore; reflexivity ..].
  apply str_split_last_app in H as [H He];
    [|rewrite str_has_app, pretty_Z_no_underscore; reflexivity ..].
  apply str_split_last_app in H as [-> Hm];
    [|rewrite str_has_app; simpl; done ..].
  apply str_app_inj_l in Hm, Hn. apply str_app_inj_r in He.
  apply (inj pretty) in He, Hn. done.
Qed.

(** Two tuples that [generate_filename] maps to the same name: the
    channel [a_mass1] at mass [2], and the channel [a] at mass [1_mass2].
    Jobs of the two with the same seed record the same output file; so do
    jobs whose [--hepmc] value is given by the user, whatever the tuple. *)
Lemma generate_filename_collision :
  generate_filename "a_mass1" "2" 13%Z 100%Z "hepmc" =
    generate_filename "a" "1_mass2" 13%Z 100%Z "hepmc" /\
  (match generate_pythia_job
           {| args_args := ["--hepmc"]; channel := "a_mass1"; energy := 13%Z;
              oDir := "/hdfs/out"; jobIdRange := (1%Z, 1%Z) |} 1%Z "2" 100%Z,
         generate_pythia_job
           {| args_args := ["--hepmc"]; channel := "a"; energy := 13%Z;
              oDir := "/hdfs/out"; jobIdRange := (1%Z, 1%Z) |} 1%Z "1_mass2" 100%Z with
   | Ok j1, Ok j2 => output_files j1 = output_files j2
   | _, _ => False
   end) /\
  (match generate_pythia_job
           {| args_args := ["--hepmc"; "run.hepmc"]; channel := "ggh";
              energy := 13%Z; oDir := "/hdfs/out"; jobIdRange := (1%Z, 1%Z) |}
           1%Z "8" 100%Z,
         generate_pythia_job
           {| args_args := ["--hepmc"; "run.hepmc"]; channel := "vbf";
              energy := 8%Z; oDir := "/hdfs/out"; jobIdRange := (1%Z, 1%Z) |}
           1%Z "9" 200%Z with
   | Ok j1, Ok j2 => output_files j1 = output_files j2
   | _, _ => False
   end).
Proof. split; [reflexivity|]. split; vm_compute; reflexivity. Qed.

(** C4 (amended).  The name recorded for an output whose flag has no
    value is injective in (channel, mass, energy, number of events,
    format, seed), for a given [--zip] setting, when the channel and the
    mass contain no [/], the mass contains no [_], and the format contains
    neither [/] nor [.].  Outside these conditions names can collide
    (lemma [generate_filename_collision]). *)
Theorem seeded_output_name_injective (c1 m1 f1 c2 m2 f2 : string)
    (e1 n1 s1 e2 n2 s2 : Z) (zip : bool) :
  str_has "/" c1 = false -> str_has "/" c2 = false ->
  str_has "/" m1 = false -> str_has "/" m2 = false ->
  str_has "_" m1 = false -> str_has "_" m2 = false ->
  str_has "/" f1 = false -> str_has "/" f2 = false ->
  str_has "." f1 = false -> str_has "." f2 = false ->
  seeded_output_name c1 m1 e1 n1 f1 s1 zip =
    seeded_output_name c2 m2 e2 n2 f2 s2 zip ->
  c1 = c2 /\ m1 = m2 /\ e1 = e2 /\ n1 = n2 /\ f1 = f2 /\ s1 = s2.
Proof.
  intros Hc1 Hc2 Hm1 Hm2 Hu1 Hu2 Hf1 Hf2 Hd1 Hd2 H.
  unfold seeded_output_name in H.
  rewrite (generated_stem c1), (generated_stem c2) in H by done.
  assert (c1 +:+ "_mass" +:+ m1 +:+ "_" +:+ pretty e1 +:+ "TeV_n" +:+
            pretty n1 +:+ "_seed" +:+ pretty s1 +:+ "." +:+ f1 =
          c2 +:+ "_mass" +:+ m2 +:+ "_" +:+ pretty e2 +:+ "TeV_n" +:+
            pretty n2 +:+ "_seed" +:+ pretty s2 +:+ "." +:+ f2) as H'.
  { rewrite !str_app_assoc in H.
    destruct zip; [|exact H].
    rewrite <- !(str_app_assoc _ _ ".gz") in H.
    apply str_app_inj_r in H. exact H. }
  clear H.
  assert (forall c m (e n s : Z) f,
            c +:+ "_mass" +:+ m +:+ "_" +:+ pretty e +:+ "TeV_n" +:+
              pretty n +:+ "_seed" +:+ pretty s +:+ "." +:+ f =
            (c +:+ "_mass" +:+ m +:+ "_" +:+ pretty e +:+ "TeV_n" +:+
              pretty n) +:+ "_seed" +:+ pretty s +:+ "." +:+ f) as Hshape.
  { intros. rewrite !str_app_assoc. reflexivity. }
  rewrite !Hshape in H'.
  apply seed_tail_inj in H' as (H & -> & ->); [|done|done].
  apply stem_inj in H as (-> & -> & -> & ->); [|done|done].
  done.
Qed.

Lemma seeded_output_name_injective_witness :
  seeded_output_name "ggh" "8.0" 13%Z 100%Z "hepmc" 2%Z true =
    "ggh_mass8.0_13TeV_n100_seed2.hepmc.gz" /\
  ("ggh" = "ggh" /\ "8.0" = "8.0" /\ 13%Z = 13%Z /\ 100%Z = 100%Z /\
   "hepmc" = "hepmc" /\ 2%Z = 2%Z).
Proof.
  split; [vm_compute; reflexivity|].
  apply (seeded_output_name_injective "ggh" "8.0" "hepmc" "ggh" "8.0" "hepmc"
           13%Z 100%Z 2%Z 13%Z 100%Z 2%Z true); reflexivity.
Defined.

(** ** JobPlanner: one job per seed, with disjoint output names *)

Lemma output_formats_spec (fmt : string) :
  fmt ∈ output_formats -> str_has "." fmt = false /\ fmt <> "gz".
Proof.
  unfold output_formats. intros H. apply list_elem_of_In in H. simpl in H.
  destruct H as [<-|[<-|[<-|[]]]]; split; (reflexivity || discriminate).
Qed.

Lemma seed_name_reassoc (a : string) (j : Z) (fmt : string) :
  a +:+ "_seed" +:+ pretty j +:+ "." +:+ fmt =
  (a +:+ "_seed" +:+ pretty j) +:+ String "." fmt.
Proof. rewrite !str_app_assoc. reflexivity. Qed.

Lemma seeded_name_of_inj (j1 j2 : Z) (x : string) :
  seeded_name_of j1 x -> seeded_name_of j2 x -> j1 = j2.
Proof.
  intros (a1 & f1 & Hf1 & [E1|E1]) (a2 & f2 & Hf2 & [E2|E2]);
    apply output_formats_spec in Hf1 as [Hd1 Hg1];
    apply output_formats_spec in Hf2 as [Hd2 Hg2];
    rewrite E1 in E2; clear E1.
  - apply seed_tail_inj in E2 as (_ & -> & _); done.
  - rewrite seed_name_reassoc in E2.
    apply str_split_last in E2 as [_ E2]; [|done|reflexivity]. congruence.
  - rewrite (seed_name_reassoc a2) in E2.
    apply str_split_last in E2 as [_ E2]; [|reflexivity|done]. congruence.
  - apply str_app_inj_r, seed_tail_inj in E2 as (_ & -> & _); done.
Qed.

Lemma pythia_outputs_names args job_index mass num_events fmts exe_args
    out_files exe_args' out_files' :
  Forall (fun fmt => fmt ∈ output_formats) fmts ->
  Forall (seeded_name_of job_index) out_files ->
  pythia_outputs args job_index mass num_events fmts exe_args out_files
    = Ok (exe_args', out_files') ->
  Forall (seeded_name_of job_index) out_files'.
Proof.
  revert exe_args out_files.
  induction fmts as [|fmt fmts IH]; intros exe_args out_files Hfmts Hout H.
  - simpl in H. injection H as _ <-. done.
  - apply Forall_cons in Hfmts as [Hfmt Hfmts].
    rewrite pythia_outputs_step in H.
    destruct (negb _); [apply (IH _ _ Hfmts Hout H)|].
    destruct (get_option_in_args _ _) as [cur|e]; simpl in H; [|discriminate].
    destruct (if truthy cur then _ else _) as [e1|e]; simpl in H; [|discriminate].
    destruct (get_option_in_args e1 _) as [[v|]|e]; simpl in H; try discriminate.
    destruct (set_option_in_args e1 _ _) as [e2|e]; simpl in H; [|discriminate].
    refine (IH _ _ Hfmts _ H).
    apply Forall_app. split; [done|]. constructor; [|constructor].
    exists (splitext (basename v)).1, fmt. split; [done|].
    destruct (py_in "--zip" e2); [right|left]; reflexivity.
Qed.

Lemma generate_pythia_job_names args job_index mass num_events jb :
  generate_pythia_job args job_index mass num_events = Ok jb ->
  Forall (seeded_name_of job_index) (output_files jb).
Proof.
  unfold generate_pythia_job. intros H.
  destruct (pythia_outputs _ _ _ _ _ _ _) as [[e outs]|e] eqn:Hp;
    simpl in H; [|discriminate].
  injection H as <-. simpl.
  refine (pythia_outputs_names _ _ _ _ _ _ _ _ _ _ (List.Forall_nil _) Hp).
  unfold output_formats. repeat constructor;
    apply list_elem_of_In; simpl; tauto.
Qed.

Lemma zrange_length (a b : Z) : length (zrange a b) = Z.to_nat (b - a + 1).
Proof.
  unfold zrange. rewrite length_map, length_seq. f_equal. lia.
Qed.

Lemma zrange_NoDup (a b : Z) : NoDup (zrange a b).
Proof.
  unfold zrange. generalize 0%nat as k.
  induction (Z.to_nat (b + 1 - a)) as [|m IH]; intros k; simpl; constructor.
  - intros Hin. apply list_elem_of_In, in_map_iff in Hin as (k' & Heq & Hk').
    apply in_seq in Hk'. lia.
  - apply IH.
Qed.

(** A base that names none of [--hepmc], [--root], [--lhe]: the two jobs
    have different seeds but the same (empty) list of output files. *)
Lemma create_dag_no_output_flag :
  exists jobs args',
    create_dag {| args_args := ["--card"; "c.txt"; "-n"; "100"];
                  channel := "ggh"; energy := 13%Z; oDir := "/hdfs/out";
                  jobIdRange := (1%Z, 2%Z) |} "8" 100%Z = Ok (jobs, args') /\
    map job_name jobs = ["1_ggh"; "2_ggh"] /\
    map output_files jobs = [[]; []].
Proof.
  eexists _, _. split; [vm_compute; reflexivity|]. split; reflexivity.
Qed.

(** C2 (amended).  For the seed range [[a, b]], [create_dag] returns
    [b - a + 1] jobs, the [k]-th built by [generate_pythia_job] with seed
    [a + k]; the seeds are pairwise distinct.  No output name is recorded
    by two jobs, so the output lists of two jobs differ as soon as one of
    them is non-empty; they are all empty when the base names no output
    format flag ([create_dag_no_output_flag]). *)
Theorem create_dag_jobs (args : py8_args) (mass : string) (num_events : Z)
    (jobs : list job) (args' : py8_args) :
  create_dag args mass num_events = Ok (jobs, args') ->
  length jobs = Z.to_nat ((jobIdRange args).2 - (jobIdRange args).1 + 1) /\
  Forall2 (fun j jb => generate_pythia_job args' j mass num_events = Ok jb)
    (zrange (jobIdRange args).1 (jobIdRange args).2) jobs /\
  NoDup (zrange (jobIdRange args).1 (jobIdRange args).2) /\
  (forall i1 i2 jb1 jb2, i1 <> i2 -> jobs !! i1 = Some jb1 ->
     jobs !! i2 = Some jb2 ->
     forall x, x ∈ output_files jb1 -> x ∉ output_files jb2).
Proof.
  intros H. unfold create_dag in H.
  destruct (if py_in "--mass" (args_args args) then _ else _) as [base|e];
    simpl in H; [|discriminate].
  destruct (mapM _ _) as [js|e] eqn:Hm; simpl in H; [|discriminate].
  injection H as <- <-.
  apply mapM_Forall2 in Hm.
  set (r := zrange (jobIdRange args).1 (jobIdRange args).2) in *.
  assert (NoDup r) as Hnd by apply zrange_NoDup.
  split_and!.
  - rewrite <- (Forall2_length _ _ _ Hm). apply zrange_length.
  - exact Hm.
  - exact Hnd.
  - intros i1 i2 jb1 jb2 Hi Hjb1 Hjb2 x Hx1 Hx2.
    destruct (Forall2_lookup_r _ _ _ _ _ Hm Hjb1) as (j1 & Hr1 & Hg1).
    destruct (Forall2_lookup_r _ _ _ _ _ Hm Hjb2) as (j2 & Hr2 & Hg2).
    apply generate_pythia_job_names in Hg1, Hg2.
    rewrite Forall_forall in Hg1, Hg2.
    pose proof (seeded_name_of_inj j1 j2 x (Hg1 x Hx1) (Hg2 x Hx2)) as ->.
    apply Hi. apply (NoDup_lookup r i1 i2 j2); done.
Qed.

Lemma create_dag_jobs_witness :
  exists r, create_dag ggh_args "8" 100%Z = Ok r /\
    length r.1 = 3%nat.
Proof.
  destruct (create_dag ggh_args "8" 100%Z) as [[jobs a']|e] eqn:Hc;
    [|vm_compute in Hc; discriminate].
  exists (jobs, a'). split; [reflexivity|].
  destruct (create_dag_jobs ggh_args "8" 100%Z jobs a' Hc) as (Hlen & _).
  simpl. rewrite Hlen. reflexivity.
Defined.

(** ** Paths and strings of the submission scripts *)

Lemma str_take_app_add (a b : string) (n : nat) :
  str_take (String.length a + n) (a +:+ b) = a +:+ str_take n b.
Proof.
  induction a as [|x a IH]; [reflexivity|].
  rewrite !str_app_cons. simpl. rewrite IH. reflexivity.
Qed.

Lemma str_drop_app_add (a b : string) (n : nat) :
  str_drop (String.length a + n) (a +:+ b) = str_drop n b.
Proof.
  induction a as [|x a IH]; [reflexivity|].
  rewrite str_app_cons. simpl. exact IH.
Qed.

Lemma str_take_drop (n : nat) (s : string) : s = str_take n s +:+ str_drop n s.
Proof.
  revert s. induction n as [|n IH]; intros [|c s]; try reflexivity.
  simpl. rewrite str_app_cons, <- IH. reflexivity.
Qed.

Lemma str_length_take (n : nat) (s : string) :
  n <= String.length s -> String.length (str_take n s) = n.
Proof.
  revert s. induction n as [|n IH]; intros [|c s] H; simpl in *; try lia.
  rewrite IH by lia. reflexivity.
Qed.

Lemma str_app_nil_r (a : string) : a +:+ "" = a.
Proof.
  induction a as [|x a IH]; [reflexivity|]. rewrite str_app_cons, IH. reflexivity.
Qed.

(** The last character of a string is determined. *)
Lemma str_snoc_inj (q p : string) (d e : ascii) :
  q +:+ String d "" = p +:+ String e "" -> q = p /\ d = e.
Proof.
  revert p. induction q as [|x q IH]; intros [|y p] H;
    rewrite ?str_app_nil, ?str_app_cons in H.
  - injection H as ->. done.
  - injection H as <- H. destruct p; discriminate.
  - injection H as -> H. destruct q; discriminate.
  - injection H as <- H. destruct (IH p H) as [-> ->]. done.
Qed.

Lemma rfind_Some (c : ascii) (s : string) (i : nat) :
  rfind c s = Some i ->
  exists a b, s = a +:+ String c b /\ str_has c b = false /\ i = String.length a.
Proof.
  revert i. induction s as [|d s IH]; intros i H; simpl in H; [discriminate|].
  destruct (rfind c s) as [j|] eqn:E.
  - injection H as <-. destruct (IH j eq_refl) as (a & b & -> & Hb & ->).
    exists (String d a), b. rewrite str_app_cons. done.
  - destruct (Ascii.eqb_spec c d) as [<-|]; [|discriminate].
    injection H as <-. exists "", s. split_and!; [done| |done].
    destruct (str_has c s) eqn:Hs; [|done].
    exfalso. clear IH. induction s as [|x s IHs]; [discriminate|].
    simpl in E, Hs. destruct (rfind c s); [discriminate|].
    destruct (Ascii.eqb c x); [discriminate|]. simpl in Hs. auto.
Qed.

Lemma rfind_None (c : ascii) (s : string) :
  rfind c s = None -> str_has c s = false.
Proof.
  induction s as [|d s IH]; [done|]. simpl.
  destruct (rfind c s); [discriminate|].
  destruct (Ascii.eqb c d); [discriminate|]. simpl. auto.
Qed.

(** A base name has no slash. *)
Lemma basename_no_slash (p : string) : str_has "/" (basename p) = false.
Proof.
  unfold basename. destruct (rfind "/" p) as [i|] eqn:E.
  - destruct (rfind_Some _ _ _ E) as (a & b & -> & Hb & ->).
    replace (S (String.length a)) with (String.length a + 1) by lia.
    rewrite str_drop_app_add. exact Hb.
  - apply rfind_None. done.
Qed.

Lemma basename_after_slash (q s : string) :
  str_has "/" s = false -> basename (q +:+ String "/" s) = s.
Proof.
  intros Hs. unfold basename. rewrite rfind_last by done.
  replace (S (String.length q)) with (String.length q + 1) by lia.
  rewrite str_drop_app_add. reflexivity.
Qed.

Lemma basename_plain (s : string) : str_has "/" s = false -> basename s = s.
Proof. intros Hs. unfold basename. rewrite rfind_absent by done. reflexivity. Qed.

Lemma endswith_spec (s suf : string) :
  endswith s suf = true <-> exists p, s = p +:+ suf.
Proof.
  unfold endswith. rewrite andb_true_iff, Nat.leb_le, String.eqb_eq. split.
  - intros [Hle Hd]. exists (str_take (String.length s - String.length suf) s).
    rewrite <- Hd at 2. apply str_take_drop.
  - intros [p ->]. rewrite str_length_app.
    replace (String.length p + String.length suf - String.length suf)
      with (String.length p + 0) by lia.
    rewrite str_drop_app_add. split; [lia|reflexivity].
Qed.

Lemma endswith_snoc (q : string) (c : ascii) :
  endswith (q +:+ String c "") (String c "") = true.
Proof. apply endswith_spec. eauto. Qed.

Lemma endswith_snoc_other (q : string) (d c : ascii) :
  d <> c -> endswith (q +:+ String d "") (String c "") = false.
Proof.
  intros Hd. destruct (endswith _ _) eqn:E; [|done].
  apply endswith_spec in E as [p E]. apply str_snoc_inj in E. naive_solver.
Qed.

(** [rstrip] *)
Lemma rstrip_snoc (c : ascii) (s : string) :
  rstrip c (s +:+ String c "") = rstrip c s.
Proof.
  induction s as [|d s IH].
  - simpl. rewrite Ascii.eqb_refl. reflexivity.
  - rewrite str_app_cons. simpl. rewrite IH. reflexivity.
Qed.

Lemma rstrip_keep (c d : ascii) (q : string) :
  d <> c -> rstrip c (q +:+ String d "") = q +:+ String d "".
Proof.
  intros Hd. induction q as [|x q IH].
  - simpl. apply Ascii.eqb_neq in Hd. rewrite Ascii.eqb_sym, Hd. reflexivity.
  - rewrite str_app_cons. simpl. rewrite IH.
    destruct q; reflexivity.
Qed.

Lemma rstrip_app_all (c : ascii) (x t : string) :
  str_has_other c t = false -> rstrip c (x +:+ t) = rstrip c x.
Proof.
  revert x. induction t as [|d t IH]; intros x Ht.
  - rewrite str_app_nil_r. reflexivity.
  - simpl in Ht. apply orb_false_iff in Ht as [Hd Ht].
    apply negb_false_iff, Ascii.eqb_eq in Hd as <-.
    replace (x +:+ String c t) with ((x +:+ String c "") +:+ t)
      by (rewrite str_app_assoc; reflexivity).
    rewrite IH by done. apply rstrip_snoc.
Qed.

Lemma rstrip_decomp (c : ascii) (s : string) :
  exists t, s = rstrip c s +:+ t /\ str_has_other c t = false.
Proof.
  induction s as [|d s [t [Ht Hto]]].
  - exists "". done.
  - simpl. destruct (rstrip c s) as [|x r] eqn:E.
    + destruct (Ascii.eqb_spec c d) as [<-|].
      * exists (String c t). rewrite str_app_nil in Ht. subst s.
        split; [done|]. simpl. rewrite Ascii.eqb_refl, Hto. done.
      * exists t. rewrite str_app_nil in Ht. subst s.
        rewrite str_app_cons, str_app_nil. done.
    + exists t. rewrite str_app_cons, <- Ht. done.
Qed.

Lemma rstrip_shape (c : ascii) (s : string) :
  rstrip c s = "" \/ exists q d, rstrip c s = q +:+ String d "" /\ d <> c.
Proof.
  induction s as [|d s IH]; [left; done|]. simpl.
  destruct IH as [E|(q & e & E & He)]; rewrite E.
  - destruct (Ascii.eqb_spec c d) as [<-|Hd]; [left; done|].
    right. exists "", d. done.
  - right. exists (String d q), e. rewrite str_app_cons.
    destruct (q +:+ String e "") eqn:E'; [destruct q; discriminate|]. done.
Qed.

Lemma rstrip_other (c : ascii) (s : string) :
  str_has_other c s = true -> rstrip c s <> "".
Proof.
  intros Hs E. destruct (rstrip_decomp c s) as [t [Ht Hto]].
  rewrite E, str_app_nil in Ht. subst. congruence.
Qed.

(** A non-empty string made of [c] only ends with [c]. *)
Lemma all_c_snoc (c : ascii) (s : string) :
  s <> "" -> str_has_other c s = false -> exists q, s = q +:+ String c "".
Proof.
  induction s as [|d s IH]; intros Hne Hs; [done|].
  simpl in Hs. apply orb_false_iff in Hs as [Hd Hs].
  apply negb_false_iff, Ascii.eqb_eq in Hd as <-.
  destruct s as [|e s'].
  - exists "". done.
  - destruct (IH ltac:(discriminate) Hs) as [q Hq].
    exists (String c q). rewrite str_app_cons, <- Hq. done.
Qed.

(** The first field of [s.split(c)] *)
Lemma split_sep_first (c : ascii) (s : string) :
  str_has c (split_sep c s).1 = false /\
  exists r, s = (split_sep c s).1 +:+ r /\ (r = "" \/ exists r', r = String c r').
Proof.
  induction s as [|d s [IH1 (r & Hr & Hr')]].
  - split; [done|]. exists "". auto.
  - simpl. destruct (split_sep c s) as [w ws] eqn:E. simpl in *.
    destruct (Ascii.eqb_spec c d) as [<-|Hd]; simpl.
    + split; [done|]. exists (String c s). eauto.
    + split.
      * apply orb_false_iff. split; [apply Ascii.eqb_neq; done|done].
      * exists r. rewrite str_app_cons, <- Hr. done.
Qed.

Lemma stem_first (f : string) : stem f = (split_sep "." (basename f)).1.
Proof.
  unfold stem, py_split. destruct (split_sep "." (basename f)) as [w ws].
  reflexivity.
Qed.

(** ** Delphes submission: [stem], [accept_file], [create_dag] *)

Lemma no_slash_startswith (s : string) :
  str_has "/" s = false -> startswith s "/" = false.
Proof.
  destruct s as [|d s]; [reflexivity|]. intros H. unfold startswith.
  rewrite prefix_char. rewrite str_has_cons in H. apply orb_false_iff in H as [H _].
  apply Ascii.eqb_neq in H. destruct (ascii_dec "/" d); [congruence|reflexivity].
Qed.

(** [os.path.join(a, b)] with a relative [b] puts a prefix depending on
    [a] only in front of [b]. *)
Lemma path_join_relative (a b : string) :
  startswith b "/" = false ->
  path_join a b = (if String.eqb a "" || endswith a "/" then a else a +:+ "/") +:+ b.
Proof.
  intros Hb. unfold path_join. rewrite Hb.
  destruct (String.eqb a "" || endswith a "/"); [reflexivity|].
  rewrite str_app_assoc. reflexivity.
Qed.

Lemma stem_no_slash (f : string) : str_has "/" (stem f) = false.
Proof.
  rewrite stem_first.
  destruct (split_sep_first "." (basename f)) as [_ (r & Hr & _)].
  pose proof (basename_no_slash f) as Hb. rewrite Hr, str_has_app in Hb.
  apply orb_false_iff in Hb as [Hb _]. exact Hb.
Qed.

Lemma accept_file_nonempty (isfile : string -> bool) (f : string) :
  accept_file isfile f = true -> f <> "".
Proof.
  intros H ->. revert H. unfold accept_file.
  destruct (isfile ""); vm_compute; discriminate.
Qed.

(** The groups of [grouper(files, 2)] once [filter(None, .)] has removed
    the padding. *)
Lemma filter_true_groups (G : list (list (option string))) (fs : list string)
    (k : nat) :
  Forall (fun g => length g = 2) G ->
  concat G = map Some fs ++ repeat None k -> k < 2 ->
  Forall (fun f => f <> "") fs ->
  concat (map filter_true G) = fs /\
  Forall (fun g => 1 <= length g <= 2) (map filter_true G).
Proof.
  revert fs. induction G as [|g G IH]; intros fs HG Hc Hk Hfs.
  - simpl in Hc. symmetry in Hc. apply app_eq_nil in Hc as [Hc _].
    destruct fs; [|discriminate]. split; [done|constructor].
  - apply Forall_cons in HG as [Hg HG].
    destruct g as [|a [|b [|? ?]]]; simpl in Hg; try discriminate.
    simpl in Hc.
    destruct fs as [|x [|y fs]].
    + destruct k as [|[|k]]; simpl in Hc; try discriminate. lia.
    + apply Forall_cons in Hfs as [Hx _].
      destruct k as [|[|k]]; simpl in Hc; try discriminate; [|lia].
      injection Hc as -> -> Hc.
      destruct G as [|g' G]; simpl in Hc.
      * simpl. rewrite (proj2 (String.eqb_neq x "") Hx). split; [done|].
        constructor; [simpl; lia|constructor].
      * apply Forall_cons in HG as [Hg' _].
        apply app_eq_nil in Hc as [-> _]. discriminate.
    + apply Forall_cons in Hfs as [Hx Hfs]. apply Forall_cons in Hfs as [Hy Hfs].
      injection Hc as -> -> Hc.
      destruct (IH fs HG Hc Hk Hfs) as [Hcat Hlen].
      simpl. rewrite (proj2 (String.eqb_neq x "") Hx), (proj2 (String.eqb_neq y "") Hy).
      simpl.
      split; [rewrite Hcat; done|]. constructor; [simpl; lia|done].
Qed.

Lemma length_concat_const {X} (n : nat) (G : list (list X)) :
  Forall (fun g => length g = n) G -> length (concat G) = n * length G.
Proof.
  induction 1 as [|g G Hg _ IH]; simpl; [lia|].
  rewrite length_app, Hg, IH. lia.
Qed.

Lemma imap_map {X Y W} (f : nat -> Y -> W) (g : X -> Y) (l : list X) :
  imap f (map g l) = imap (fun i x => f i (g x)) l.
Proof.
  revert f. induction l as [|x l IH]; intros f; [done|]. simpl. f_equal. apply IH.
Qed.

(** The groups of files that [delphes_create_dag] hands to its jobs. *)
Lemma delphes_grouping (fs : list string) :
  Forall (fun f => f <> "") fs ->
  concat (map filter_true (grouper (map Some fs) 2 None)) = fs /\
  Forall (fun g => 1 <= length g <= 2) (map filter_true (grouper (map Some fs) 2 None)) /\
  length (grouper (map Some fs) 2 None) = (length fs + 1) / 2.
Proof.
  intros Hfs. unfold grouper.
  destruct (izip_run_groups (None : option string) 2
              (S (length (map Some fs))) (map Some fs)) as [Hall [k [Hk Hcat]]];
    [lia|lia|].
  change (Z.to_nat 2) with 2.
  destruct (filter_true_groups _ fs k Hall Hcat Hk Hfs) as [H1 H2].
  split_and!; [done|done|].
  pose proof (length_concat_const 2 _ Hall) as HL.
  rewrite Hcat, length_app, length_map, List.repeat_length in HL.
  rewrite length_map. apply (Nat.div_unique _ 2 _ (1 - k)); lia.
Qed.

(** [stem] keeps the part of the base name before its first dot. *)
Theorem stem_shape (f : string) :
  str_has "." (stem f) = false /\ str_has "/" (stem f) = false /\
  exists r, basename f = stem f +:+ r /\ (r = "" \/ exists r', r = String "." r').
Proof.
  split_and!; [|apply stem_no_slash|].
  - rewrite stem_first. apply split_sep_first.
  - rewrite stem_first. apply split_sep_first.
Qed.

(** Two input files are given the same Delphes output file exactly when
    their stems agree, e.g. [sig.lhe] and [sig.hepmc.gz]. *)
Theorem delphes_output_collision (oDir f1 f2 : string) :
  delphes_output oDir f1 = delphes_output oDir f2 <-> stem f1 = stem f2.
Proof.
  unfold delphes_output. split; [|intros ->; reflexivity].
  rewrite !path_join_relative by apply no_slash_startswith, stem_no_slash.
  intros H. apply str_app_inj_r in H. apply str_app_inj_l in H. exact H.
Qed.

(** [accept_file] accepts the files whose lower-cased base name ends in
    [.lhe], [.hepmc], [.gz] or [.tgz] ([.tar.gz] adds nothing). *)
Theorem accept_file_spec (isfile : string -> bool) (f : string) :
  accept_file isfile f =
    isfile f && existsb (endswith (lower (basename f))) [".lhe"; ".hepmc"; ".gz"; ".tgz"].
Proof.
  unfold accept_file, delphes_extensions. set (s := lower (basename f)).
  assert (endswith s ".tar.gz" = true -> endswith s ".gz" = true) as Htar.
  { intros H. apply endswith_spec in H as [p Hp]. apply endswith_spec.
    exists (p +:+ ".tar"). rewrite Hp, str_app_assoc. reflexivity. }
  destruct (isfile f); simpl; [|reflexivity].
  destruct (endswith s ".lhe"), (endswith s ".hepmc"); simpl; try reflexivity.
  destruct (endswith s ".gz"); simpl; [reflexivity|].
  destruct (endswith s ".tar.gz"); simpl; [|reflexivity].
  specialize (Htar eq_refl). discriminate.
Qed.

(** A successful Delphes [create_dag] splits the accepted input files,
    in listing order, into groups of one or two files, one job per group
    and [ceil(n / 2)] jobs for [n] files; job [i] is named [delphes<i>]
    and processes the files of its group. *)
Theorem delphes_create_dag_groups (isfile : string -> bool) (abs_idir : string)
    (listing : list string) (card oDir type : string) (jobs : list delphes_job) :
  delphes_create_dag isfile abs_idir listing card oDir type = Done jobs ->
  let input_files :=
    List.filter (accept_file isfile) (map (path_join abs_idir) listing) in
  exists delphes_exe groups,
    exe_dict type = Some delphes_exe /\
    concat groups = input_files /\
    Forall (fun g => 1 <= length g <= 2) groups /\
    length jobs = (length input_files + 1) / 2 /\
    jobs = imap (fun i g => {| dj_name := "delphes" +:+ pretty i;
                               dj_args := delphes_job_args card delphes_exe oDir g |})
                groups.
Proof.
  intros H. unfold delphes_create_dag in H. cbv zeta.
  set (input_files := List.filter (accept_file isfile) (map (path_join abs_idir) listing)) in *.
  assert (Forall (fun f => f <> "") input_files) as Hne.
  { apply List.Forall_forall. intros f Hf. unfold input_files in Hf.
    apply filter_In in Hf as [_ Hf]. apply (accept_file_nonempty isfile). done. }
  destruct (delphes_grouping input_files Hne) as (Hcat & Hlen & Hn).
  destruct input_files as [|x xs] eqn:Ein; [discriminate|].
  destruct (exe_dict type) as [e|]; [|discriminate].
  injection H as <-.
  exists e, (map filter_true (grouper (map Some (x :: xs)) 2 None)).
  split_and!; [done|done|done| |].
  - rewrite length_imap. exact Hn.
  - rewrite imap_map. reflexivity.
Qed.

(** The outcome of the Delphes [create_dag]: [OSError] when no input file
    is accepted, whatever the type; otherwise [KeyError] for a type other
    than [hepmc] and [lhe], and at least one job for those. *)
Theorem delphes_create_dag_outcomes (isfile : string -> bool) (abs_idir : string)
    (listing : list string) (card oDir type : string) :
  let input_files :=
    List.filter (accept_file isfile) (map (path_join abs_idir) listing) in
  (input_files = [] /\
   delphes_create_dag isfile abs_idir listing card oDir type = Raise OSError) \/
  (input_files <> [] /\ type <> "hepmc" /\ type <> "lhe" /\
   delphes_create_dag isfile abs_idir listing card oDir type = Raise (Py KeyError)) \/
  (input_files <> [] /\ (type = "hepmc" \/ type = "lhe") /\
   exists jobs, jobs <> [] /\
     delphes_create_dag isfile abs_idir listing card oDir type = Done jobs).
Proof.
  unfold delphes_create_dag. cbv zeta.
  set (input_files := List.filter (accept_file isfile) (map (path_join abs_idir) listing)) in *.
  assert (Forall (fun f => f <> "") input_files) as Hne.
  { apply List.Forall_forall. intros f Hf. unfold input_files in Hf.
    apply filter_In in Hf as [_ Hf]. apply (accept_file_nonempty isfile). done. }
  destruct (delphes_grouping input_files Hne) as (_ & _ & Hn).
  destruct input_files as [|x xs] eqn:Ein; [left; done|right].
  unfold exe_dict.
  destruct (String.eqb_spec type "hepmc") as [->|H1];
    [|destruct (String.eqb_spec type "lhe") as [->|H2]].
  - right. split_and!; [done|auto|].
    eexists. split; [|reflexivity].
    intros Hj. apply (f_equal length) in Hj. rewrite length_imap, Hn in Hj.
    change (length (@nil delphes_job)) with 0 in Hj.
    pose proof (Nat.div_str_pos (length (x :: xs) + 1) 2 ltac:(simpl; lia)). lia.
  - right. split_and!; [done|auto|].
    eexists. split; [|reflexivity].
    intros Hj. apply (f_equal length) in Hj. rewrite length_imap, Hn in Hj.
    change (length (@nil delphes_job)) with 0 in Hj.
    pose proof (Nat.div_str_pos (length (x :: xs) + 1) 2 ltac:(simpl; lia)). lia.
  - left. done.
Qed.

(** ** Delphes submission: [generate_output_dir] and [check_args] *)

Lemma str_snoc_cases (s : string) :
  s = "" \/ exists q e, s = q +:+ String e "".
Proof.
  induction s as [|d s [->|(q & e & ->)]]; [left; done| |]; right.
  - exists "", d. done.
  - exists (String d q), e. rewrite str_app_cons. done.
Qed.

Lemma str_has_take (c : ascii) (n : nat) (s : string) :
  str_has c s = false -> str_has c (str_take n s) = false.
Proof.
  intros H. rewrite (str_take_drop n s), str_has_app in H.
  apply orb_false_iff in H as [H _]. exact H.
Qed.

Lemma rstrip_noop (c : ascii) (s : string) :
  endswith s (String c "") = false -> rstrip c s = s.
Proof.
  destruct (str_snoc_cases s) as [->|(q & e & ->)]; [done|].
  intros H. apply rstrip_keep. intros ->. rewrite endswith_snoc in H. discriminate.
Qed.

Lemma head_after_slash (a b : string) :
  str_take (S (String.length a)) (a +:+ String "/" b) = a +:+ "/".
Proof.
  replace (S (String.length a)) with (String.length a + 1) by lia.
  rewrite str_take_app_add. reflexivity.
Qed.

(** The result of [os.path.dirname] is empty, made of slashes only, or
    ends with a character other than a slash. *)
Lemma dirname_shape (p : string) :
  dirname p = "" \/
  (exists q, dirname p = q +:+ "/" /\ str_has_other "/" (dirname p) = false) \/
  (exists q d, dirname p = q +:+ String d "" /\ d <> "/"%char).
Proof.
  unfold dirname. destruct (rfind "/" p) as [i|] eqn:E; [|left; reflexivity].
  destruct (rfind_Some _ _ _ E) as (a & b & -> & _ & ->).
  rewrite head_after_slash.
  destruct (negb (String.eqb (a +:+ "/") "") && str_has_other "/" (a +:+ "/")) eqn:Hc.
  - destruct (rstrip_shape "/" (a +:+ "/")) as [E'|E']; [left|right; right]; exact E'.
  - right; left. exists a. split; [done|].
    destruct (str_has_other "/" (a +:+ "/")) eqn:Ho; [|done].
    rewrite andb_true_r in Hc. apply negb_false_iff, String.eqb_eq in Hc.
    destruct a; discriminate.
Qed.

(** [os.path.join] of a directory name and a relative name without a
    slash: [os.path.dirname] gives the directory back. *)
Lemma dirname_path_join (p s : string) :
  str_has "/" s = false -> dirname (path_join (dirname p) s) = dirname p.
Proof.
  intros Hs. pose proof (no_slash_startswith s Hs) as Hs'.
  destruct (dirname_shape p) as [E|[(q & E & Ho)|(q & d & E & Hd)]];
    rewrite E; unfold path_join; rewrite Hs'.
  - change (String.eqb "" "") with true. simpl.
    unfold dirname. rewrite rfind_absent by done. reflexivity.
  - rewrite E in Ho. rewrite endswith_snoc, orb_true_r.
    rewrite str_app_assoc. change ("/" +:+ s) with (String "/" s).
    unfold dirname. rewrite rfind_last by done.
    rewrite head_after_slash, Ho, andb_false_r. reflexivity.
  - rewrite endswith_snoc_other by done.
    replace (String.eqb (q +:+ String d "") "") with false
      by (destruct q; reflexivity).
    simpl. unfold dirname.
    change ("/" +:+ s) with (String "/" s).
    rewrite rfind_last by done. rewrite head_after_slash.
    replace (negb (String.eqb ((q +:+ String d "") +:+ "/") "") &&
             str_has_other "/" ((q +:+ String d "") +:+ "/")) with true.
    + rewrite rstrip_snoc, rstrip_keep by done. reflexivity.
    + assert (Ascii.eqb "/" d = false) as Hd' by (apply Ascii.eqb_neq; congruence).
      rewrite !str_has_other_app.
      change (str_has_other "/" (String d "")) with (negb (Ascii.eqb "/" d) || false).
      rewrite Hd'. destruct (str_has_other "/" q); destruct q; reflexivity.
Qed.

Lemma basename_path_join (a s : string) :
  str_has "/" s = false -> basename (path_join a s) = s.
Proof.
  intros Hs. unfold path_join. rewrite no_slash_startswith by done.
  destruct (String.eqb_spec a "") as [->|Ha]; [apply basename_plain; done|].
  simpl. destruct (endswith a "/") eqn:E.
  - apply endswith_spec in E as [q ->]. rewrite str_app_assoc.
    apply basename_after_slash. done.
  - apply basename_after_slash. done.
Qed.

(** A string ending with [c] ends with a character of any non-empty
    suffix. *)
Lemma snoc_suffix_has (a b p : string) (c : ascii) :
  b <> "" -> a +:+ b = p +:+ String c "" -> str_has c b = true.
Proof.
  intros Hb H. destruct (str_snoc_cases b) as [->|(q & e & ->)]; [done|].
  rewrite <- str_app_assoc in H. apply str_snoc_inj in H as [_ ->].
  rewrite str_has_app. simpl. rewrite Ascii.eqb_refl, orb_true_r. done.
Qed.

Lemma dirname_input_cards (card : string) :
  dirname card = "input_cards" <->
  exists seps name, seps <> "" /\ str_has_other "/" seps = false /\
    str_has "/" name = false /\ card = "input_cards" +:+ seps +:+ name.
Proof.
  split.
  - unfold dirname. destruct (rfind "/" card) as [i|] eqn:E; [|discriminate].
    destruct (rfind_Some _ _ _ E) as (a & b & -> & Hb & ->).
    rewrite head_after_slash. intros H.
    assert (a +:+ "/" <> "input_cards") as Hne.
    { change "input_cards" with ("input_card" +:+ "s").
      intros Heq. apply str_snoc_inj in Heq as [_ Heq]. discriminate. }
    destruct (_ && _); [|done].
    destruct (rstrip_decomp "/" (a +:+ "/")) as [t [Ht Hto]].
    rewrite H in Ht. exists t, b. split_and!; [|done|done|].
    + intros ->. rewrite str_app_nil_r in Ht. done.
    + rewrite <- str_app_assoc, <- Ht, str_app_assoc. reflexivity.
  - intros (seps & name & Hne & Hseps & Hname & ->).
    destruct (all_c_snoc "/" seps Hne Hseps) as [q ->].
    unfold dirname.
    replace ("input_cards" +:+ (q +:+ "/") +:+ name)
      with (("input_cards" +:+ q) +:+ String "/" name)
      by (rewrite !str_app_assoc; reflexivity).
    rewrite rfind_last by done. rewrite head_after_slash.
    rewrite str_app_assoc, rstrip_app_all by done.
    rewrite str_has_other_app. reflexivity.
Qed.

(** [generate_output_dir] gives the same directory for [d] and [d/]. *)
Theorem generate_output_dir_trailing_slash (input_dir card filetype : string) :
  generate_output_dir (input_dir +:+ "/") card filetype =
  generate_output_dir input_dir card filetype.
Proof.
  unfold generate_output_dir. rewrite endswith_snoc, rstrip_snoc.
  destruct (endswith input_dir "/") eqn:E; [reflexivity|].
  rewrite rstrip_noop by done. reflexivity.
Qed.

(** The output directory of [generate_output_dir] is a sibling of the
    input directory (trailing slashes removed): its parent is the input
    directory's parent and its last component is [<card stem>_<filetype>];
    it has no trailing slash. *)
Theorem generate_output_dir_sibling (input_dir card filetype : string) :
  str_has "/" filetype = false ->
  let stripped :=
    if endswith input_dir "/" then rstrip "/" input_dir else input_dir in
  dirname (generate_output_dir input_dir card filetype) = dirname stripped /\
  basename (generate_output_dir input_dir card filetype) =
    (splitext (basename card)).1 +:+ "_" +:+ filetype /\
  endswith (generate_output_dir input_dir card filetype) "/" = false.
Proof.
  intros Hft stripped. unfold generate_output_dir. fold stripped.
  set (subdir := (splitext (basename card)).1 +:+ "_" +:+ filetype).
  assert (str_has "/" subdir = false) as Hs.
  { unfold subdir. rewrite !str_has_app, Hft. simpl.
    rewrite orb_false_r. unfold splitext.
    destruct (rfind "." (basename card)); [case_match|]; simpl;
      try apply str_has_take; apply basename_no_slash. }
  split_and!.
  - apply dirname_path_join. done.
  - apply basename_path_join. done.
  - destruct (endswith (path_join _ subdir) "/") eqn:E; [|done].
    apply endswith_spec in E as [p E].
    rewrite path_join_relative in E by (apply no_slash_startswith; done).
    apply snoc_suffix_has in E; [congruence|].
    unfold subdir. intros H. apply (f_equal String.length) in H.
    rewrite !str_length_app in H. simpl in H. lia.
Qed.

(** Delphes' [check_args] passes exactly when the Delphes and input
    directories exist and the card is an existing file of [input_cards]:
    [input_cards], one or more slashes, and a name without a slash. *)
Theorem delphes_check_args_card (isdir isfile : string -> bool)
    (card iDir delphes_dir : string) :
  delphes_check_args isdir isfile card iDir delphes_dir = Done tt <->
  isdir delphes_dir = true /\ isdir iDir = true /\ isfile card = true /\
  exists seps name, seps <> "" /\ str_has_other "/" seps = false /\
    str_has "/" name = false /\ card = "input_cards" +:+ seps +:+ name.
Proof.
  rewrite <- dirname_input_cards. unfold delphes_check_args.
  destruct (isdir delphes_dir), (isdir iDir), (isfile card); simpl;
    try (split; [discriminate|naive_solver]).
  destruct (String.eqb_spec (dirname card) "input_cards"); simpl;
    [split; auto|split; [discriminate|naive_solver]].
Qed.

(** ** Pythia submission: [int()] and [get_number_events] *)

Lemma pretty_N_go_app (x : N) (s : string) :
  pretty_N_go x s = pretty_N_go x "" +:+ s.
Proof.
  revert s. induction (N.lt_wf_0 x) as [x _ IH]; intros s.
  destruct (decide (x = 0)%N) as [->|Hx]; [rewrite !pretty_N_go_0; reflexivity|].
  assert (x `div` 10 < x)%N as Hlt by (apply N.div_lt; lia).
  rewrite (pretty_N_go_step x s), (pretty_N_go_step x "") by lia.
  rewrite (IH _ Hlt (String (pretty_N_char (x `mod` 10)) s)).
  rewrite (IH _ Hlt (String (pretty_N_char (x `mod` 10)) "")).
  rewrite str_app_assoc. reflexivity.
Qed.

Lemma pretty_N_go_nonempty (x : N) : (0 < x)%N -> pretty_N_go x "" <> "".
Proof.
  intros Hx. rewrite pretty_N_go_step, pretty_N_go_app by done.
  destruct (pretty_N_go _ ""); discriminate.
Qed.

Lemma digit_value_char (d : N) :
  (d < 10)%N -> digit_value (pretty_N_char d) = Some (Z.of_N d).
Proof.
  intros Hd.
  assert (d = 0 \/ d = 1 \/ d = 2 \/ d = 3 \/ d = 4 \/ d = 5 \/ d = 6 \/
          d = 7 \/ d = 8 \/ d = 9)%N as Hc by lia.
  repeat destruct Hc as [->|Hc]; try reflexivity. subst. reflexivity.
Qed.

Lemma digit_char_facts (c : ascii) :
  digit_value c <> None ->
  is_space c = false /\ Ascii.eqb c "-" = false /\ Ascii.eqb c "+" = false.
Proof.
  intros H. destruct c as [[] [] [] [] [] [] [] []];
    first [split_and!; reflexivity | exfalso; apply H; reflexivity].
Qed.

Lemma span_digits_pretty (x : N) (s : string) :
  span_digits (pretty_N_go x s) =
    (pretty_N_go x "" +:+ (span_digits s).1, (span_digits s).2).
Proof.
  revert s. induction (N.lt_wf_0 x) as [x _ IH]; intros s.
  destruct (decide (x = 0)%N) as [->|Hx].
  - rewrite !pretty_N_go_0. destruct (span_digits s). reflexivity.
  - assert (x `div` 10 < x)%N as Hlt by (apply N.div_lt; lia).
    rewrite (pretty_N_go_step x s), (pretty_N_go_step x "") by lia.
    rewrite (IH _ Hlt (String (pretty_N_char (x `mod` 10)) s)).
    rewrite (pretty_N_go_app _ (String _ "")).
    simpl. rewrite digit_value_char by (apply N.mod_lt; lia).
    destruct (span_digits s) as [d r]. simpl.
    rewrite str_app_assoc. reflexivity.
Qed.

Lemma digits_val_app (acc : Z) (p q : string) :
  digits_val acc (p +:+ q) = digits_val (digits_val acc p) q.
Proof.
  revert acc. induction p as [|c p IH]; intros acc; [reflexivity|].
  rewrite str_app_cons. simpl. apply IH.
Qed.

Lemma digits_val_pretty (x : N) : digits_val 0 (pretty_N_go x "") = Z.of_N x.
Proof.
  induction (N.lt_wf_0 x) as [x _ IH].
  destruct (decide (x = 0)%N) as [->|Hx]; [reflexivity|].
  rewrite pretty_N_go_step, pretty_N_go_app, digits_val_app by lia.
  rewrite IH by (apply N.div_lt; lia). simpl.
  rewrite digit_value_char by (apply N.mod_lt; lia).
  pose proof (N.div_mod x 10 ltac:(lia)). lia.
Qed.

(** [int()] on a non-empty string of digits, with or without a minus
    sign. *)
Lemma py_int_digits (P : string) :
  span_digits P = (P, "") -> P <> "" ->
  py_int P = Done (digits_val 0 P) /\
  py_int ("-" +:+ P) = Done (- digits_val 0 P)%Z.
Proof.
  intros Hsp Hne. destruct P as [|c r]; [done|].
  assert (digit_value c <> None) as Hc.
  { intros E. simpl in Hsp. rewrite E in Hsp. discriminate. }
  destruct (digit_char_facts c Hc) as (Hs & Hm & Hp).
  unfold py_int. split.
  - cbn [skip_space]. rewrite Hs. rewrite Hm, Hp.
    cbn [skip_space]. rewrite Hs, Hsp. reflexivity.
  - change ("-" +:+ String c r) with (String "-" (String c r)).
    cbn [skip_space]. change (is_space "-") with false. cbv iota beta.
    change (Ascii.eqb "-" "-") with true. cbv iota beta.
    cbn [skip_space]. rewrite Hs, Hsp. reflexivity.
Qed.

(** [int(str(n)) == n]. *)
Lemma py_int_pretty (z : Z) : py_int (pretty z) = Done z.
Proof.
  destruct z as [|p|p]; [reflexivity| |].
  - change (pretty (Zpos p)) with (pretty_N_go (Npos p) "").
    pose proof (span_digits_pretty (Npos p) "") as Hs.
    rewrite str_app_nil_r in Hs.
    destruct (py_int_digits _ Hs (pretty_N_go_nonempty (Npos p) ltac:(lia))) as [H _].
    rewrite H, digits_val_pretty. reflexivity.
  - change (pretty (Zneg p)) with ("-" +:+ pretty_N_go (Npos p) "").
    pose proof (span_digits_pretty (Npos p) "") as Hs.
    rewrite str_app_nil_r in Hs.
    destruct (py_int_digits _ Hs (pretty_N_go_nonempty (Npos p) ltac:(lia))) as [_ H].
    rewrite H, digits_val_pretty. reflexivity.
Qed.

Lemma startswith_pretty_nonneg (z : Z) : (0 <= z)%Z -> startswith (pretty z) "-" = false.
Proof.
  intros Hz. destruct z as [|p|p]; [reflexivity| |lia].
  change (pretty (Zpos p)) with (pretty_N_go (Npos p) "").
  pose proof (span_digits_pretty (Npos p) "") as Hs.
  rewrite str_app_nil_r in Hs.
  pose proof (pretty_N_go_nonempty (Npos p) ltac:(lia)) as Hne.
  destruct (pretty_N_go (Npos p) "") as [|c r]; [done|].
  assert (digit_value c <> None) as Hc.
  { intros E. simpl in Hs. rewrite E in Hs. discriminate. }
  destruct (digit_char_facts c Hc) as (_ & Hm & _).
  unfold startswith. rewrite prefix_char.
  destruct (ascii_dec "-" c) as [<-|]; [discriminate|reflexivity].
Qed.

Lemma flag_value_not_last (pre post : list string) (f t : string) :
  f <> t -> f ∉ post -> last (pre ++ f :: t :: post) <> Some f.
Proof.
  intros Hft Hpost Hl. rewrite last_app_cons, last_cons_cons in Hl.
  apply last_Some_elem_of in Hl. apply elem_of_cons in Hl as [->|Hl]; done.
Qed.

Lemma get_option_value (pre post : list string) (f t : string) :
  f ∉ pre -> f <> t -> f ∉ post -> startswith t "-" = false ->
  get_option_in_args (pre ++ f :: t :: post) f = Ok (Some t).
Proof.
  intros Hpre Hft Hpost Ht. rewrite get_option_split by done.
  rewrite decide_False by (apply flag_value_not_last; done).
  rewrite Ht. reflexivity.
Qed.

Lemma startswith_pretty_neg (z : Z) : (z < 0)%Z -> startswith (pretty z) "-" = true.
Proof.
  intros Hz. destruct z as [|p|p]; [lia|lia|].
  change (pretty (Zneg p)) with (String "-" (pretty_N_go (Npos p) "")).
  unfold startswith. rewrite prefix_char.
  destruct (ascii_dec "-" "-"); done.
Qed.

Lemma get_option_number (pre post : list string) (f : string) (n : Z) :
  f ∉ pre -> pretty n <> f ->
  (let+ o := lift (get_option_in_args (pre ++ f :: pretty n :: post) f) in
   py_int_opt o) =
    if decide ((0 <= n)%Z /\ last (pre ++ f :: pretty n :: post) <> Some f)
    then Done n else Raise TypeError.
Proof.
  intros Hpre Hf. rewrite get_option_split by done.
  destruct (decide (last _ = Some f)) as [Hl|Hl].
  - rewrite decide_False by tauto. reflexivity.
  - destruct (decide (0 <= n)%Z) as [Hn|Hn].
    + rewrite startswith_pretty_nonneg by done. rewrite decide_True by tauto.
      apply py_int_pretty.
    + rewrite startswith_pretty_neg by lia. rewrite decide_False by tauto.
      reflexivity.
Qed.

(** [get_number_events] reads the token after the first [--number], or
    after the first [-n] when [--number] is absent: a non-negative number
    written there is returned, unless the last token of the arguments is
    the flag itself; then, and for a negative number (which starts with a
    minus sign and is taken for the next flag), [int(None)] raises
    [TypeError]. *)
Theorem get_number_events_value (pre post : list string) (flag : string) (n : Z) :
  (flag = "--number" \/ (flag = "-n" /\ "--number" ∉ pre ++ post)) ->
  flag ∉ pre ->
  get_number_events (pre ++ flag :: pretty n :: post) =
    if decide ((0 <= n)%Z /\ last (pre ++ flag :: pretty n :: post) <> Some flag)
    then Done n else Raise TypeError.
Proof.
  intros Hflag Hpre.
  assert (pretty n <> flag) as Hf.
  { destruct Hflag as [->|[-> _]];
      apply (pretty_Z_ne_flag _ "n"); [no_digit|discriminate|reflexivity
                                      |no_digit|discriminate|reflexivity]. }
  pose proof (get_option_number pre post flag n Hpre Hf) as Hv.
  unfold get_number_events.
  destruct Hflag as [->|[-> Hnum]].
  - assert (py_in "--number" (pre ++ "--number" :: pretty n :: post) = true) as ->
      by (apply py_in_spec; set_solver).
    exact Hv.
  - assert (pretty n <> "--number") as Hf'.
    { apply (pretty_Z_ne_flag _ "n"); [no_digit|discriminate|reflexivity]. }
    assert (py_in "--number" (pre ++ "-n" :: pretty n :: post) = false) as ->.
    { apply py_in_false. rewrite elem_of_app in Hnum.
      rewrite elem_of_app, !elem_of_cons. intros [H|[H|[H|H]]]; try done; auto. }
    assert (py_in "-n" (pre ++ "-n" :: pretty n :: post) = true) as ->
      by (apply py_in_spec; set_solver).
    exact Hv.
Qed.


(** ** MG5_aMC: copying a card, the new card and [get_value_from_card] *)

Lemma join_cons (l : string) (ls : list string) : join (l :: ls) = l +:+ join ls.
Proof.
  unfold join. destruct ls as [|l' ls]; simpl.
  - rewrite str_app_nil_r. reflexivity.
  - rewrite str_app_nil. reflexivity.
Qed.

(** [''.join(f.readlines())] is the content of [f]. *)
Lemma join_readlines (s : string) : join (readlines s) = s.
Proof.
  induction s as [|c s IH]; [reflexivity|]. simpl.
  destruct (Ascii.eqb c nl).
  - rewrite join_cons, IH. reflexivity.
  - destruct (readlines s) as [|l ls] eqn:E.
    + change (join []) with "" in IH. subst s. reflexivity.
    + rewrite join_cons. rewrite join_cons in IH. rewrite <- IH. reflexivity.
Qed.

Lemma make_card_line_keep (name value line : string) :
  contains name line = false -> make_card_line name value line = Ok line.
Proof.
  intros H. unfold make_card_line. rewrite H, !orb_true_r. reflexivity.
Qed.

Lemma make_card_fields_keep (t : list string) (fields : list (string * string)) :
  (forall f line, f ∈ fields -> line ∈ t -> contains f.1 line = false) ->
  make_card_fields t fields = Ok t.
Proof.
  induction fields as [|f fields IH]; intros H; [reflexivity|]. simpl.
  assert (make_card_field t f = Ok t) as ->.
  { unfold make_card_field. clear IH.
    assert (forall line, line ∈ t -> contains f.1 line = false) as Ht.
    { intros line Hl. apply H; [left|done]. }
    clear H. induction t as [|l t IHt]; [reflexivity|]. simpl.
    rewrite make_card_line_keep by (apply Ht; left). simpl.
    rewrite IHt by (intros line Hl; apply Ht; right; done). reflexivity. }
  simpl. apply IH. intros f' line Hf Hl. apply H; [right|]; done.
Qed.

Lemma splitext_app (p : string) : (splitext p).1 +:+ (splitext p).2 = p.
Proof.
  unfold splitext. destruct (rfind "." p) as [d|]; simpl; [|apply str_app_nil_r].
  destruct (_ && _); simpl; [|apply str_app_nil_r].
  symmetry. apply str_take_drop.
Qed.

Lemma default_new_card_ne (card : string) : default_new_card card <> card.
Proof.
  unfold default_new_card. intros H. apply (f_equal String.length) in H.
  pose proof (f_equal String.length (splitext_app card)) as E.
  rewrite str_length_app in E. rewrite !str_length_app in H. simpl in H. lia.
Qed.

Lemma make_card_frame (fs : filesystem) (in_card out_card : string)
    (fields : list (string * string)) (r : result unit) (fs' : filesystem) :
  make_card fs in_card out_card fields = (r, fs') ->
  fs' = fs \/ exists content, fs' = <[out_card := content]> fs.
Proof.
  unfold make_card. destruct (fs !! in_card); [|intros [=]; left; done].
  destruct (make_card_fields _ _); intros [=]; [right; eauto|left; done].
Qed.

Lemma split_ws_go_words (s w : string) (ws : list string) :
  split_ws_go s = (w, ws) ->
  (forall c, str_has c w = true -> is_space c = false) /\
  Forall (fun x => x <> "" /\ forall c, str_has c x = true -> is_space c = false) ws.
Proof.
  revert w ws. induction s as [|d s IH]; intros w ws H; simpl in H.
  - injection H as <- <-. split; [discriminate|constructor].
  - destruct (split_ws_go s) as [w' ws'] eqn:E.
    destruct (IH w' ws' eq_refl) as [Hw' Hws'].
    destruct (is_space d) eqn:Hd; injection H as <- <-.
    + split; [discriminate|].
      destruct (String.eqb_spec w' ""); [done|]. constructor; [split|]; done.
    + split; [|done]. intros x Hx. simpl in Hx.
      apply orb_true_iff in Hx as [Hx|Hx].
      * apply Ascii.eqb_eq in Hx. subst x. done.
      * apply Hw'. done.
Qed.

Lemma split_ws_words (s : string) :
  Forall (fun x => x <> "" /\ forall c, str_has c x = true -> is_space c = false)
    (split_ws s).
Proof.
  unfold split_ws. destruct (split_ws_go s) as [w ws] eqn:E.
  destruct (split_ws_go_words s w ws E) as [Hw Hws].
  destruct (String.eqb_spec w ""); [done|]. constructor; [split|]; done.
Qed.






Lemma find_field_value_ok (field : string) (lines : list string) (v : string) :
  find_field_value field lines = Ok v ->
  exists pre line post, lines = pre ++ line :: post /\
    Forall (fun l => contains field (strip l) = false) pre /\
    contains field (strip line) = true /\ last (split_ws (strip line)) = Some v.
Proof.
  induction lines as [|line lines IH]; intros H; [discriminate|]. simpl in H.
  destruct (contains field (strip line)) eqn:Hc.
  - exists [], line, lines. split_and!; [done|constructor|done|].
    unfold py_last in H. destruct (last _); congruence.
  - destruct (IH H) as (pre & l & post & -> & Hpre & Hl & Hv).
    exists (line :: pre), l, post. split_and!; [done|constructor|done|done]; done.
Qed.



(** [make_card] with fields whose names occur in no line of the input
    card (in particular with no fields) writes an exact copy of it. *)
Theorem make_card_copy (fs : filesystem) (in_card out_card content : string)
    (fields : list (string * string)) :
  fs !! in_card = Some content ->
  (forall f line, f ∈ fields -> line ∈ readlines content -> contains f.1 line = false) ->
  make_card fs in_card out_card fields = (Ok tt, <[out_card := content]> fs).
Proof.
  intros Hin Hf. unfold make_card. rewrite Hin.
  rewrite make_card_fields_keep by done. rewrite join_readlines. reflexivity.
Qed.

(** Without [--new] (or with an empty one) [run_mg5] writes its new card
    to [<root>_new<ext>], which is never the input card: the template is
    left as it was, whatever the outcome. *)
Theorem run_mg5_keeps_template (fs : filesystem) (card : string)
    (new : option string) (fields : list (string * string))
    (r : result unit) (fs' : filesystem) :
  (new = None \/ new = Some "") ->
  run_mg5_make_card fs card new fields = (r, fs') ->
  fs' !! card = fs !! card.
Proof.
  intros Hnew H. unfold run_mg5_make_card in H.
  assert (match new with
          | Some n => if String.eqb n "" then default_new_card card else n
          | None => default_new_card card
          end = default_new_card card) as Hn by (destruct Hnew as [->| ->]; done).
  rewrite Hn in H.
  destruct (make_card_frame _ _ _ _ _ _ H) as [->|[c ->]]; [done|].
  apply lookup_insert_ne. pose proof (default_new_card_ne card). congruence.
Qed.

(** A value read by [get_value_from_card] is the last word of the first
    line of the card whose stripped form contains the field name: it is
    non-empty and has no white space. *)
Theorem get_value_from_card_ok (fs : filesystem) (card field v : string) :
  get_value_from_card fs card field = Ok v ->
  exists content pre line post,
    fs !! card = Some content /\ readlines content = pre ++ line :: post /\
    Forall (fun l => contains field (strip l) = false) pre /\
    contains field (strip line) = true /\
    last (split_ws (strip line)) = Some v /\
    v <> "" /\ (forall c, str_has c v = true -> is_space c = false).
Proof.
  unfold get_value_from_card. destruct (fs !! card) as [content|]; [|discriminate].
  intros H. destruct (find_field_value_ok _ _ _ H) as (pre & line & post & E & Hpre & Hl & Hv).
  pose proof (split_ws_words (strip line)) as Hw.
  apply last_Some_elem_of in Hv as Hv'.
  rewrite List.Forall_forall in Hw. apply list_elem_of_In in Hv'.
  destruct (Hw v Hv') as [Hne Hsp].
  exists content, pre, line, post. split_and!; done.
Qed.


(** ** ArgVector: filling in a missing value *)

(** When the flag has no value, [set_option_in_args] appends the value
    if the last token is the flag (wherever its first occurrence is), and
    otherwise inserts it right after the first occurrence of the flag. *)
Theorem set_option_fill (pre post : list string) (f y : string) :
  f ∉ pre -> get_option_in_args (pre ++ f :: post) f = Ok None ->
  set_option_in_args (pre ++ f :: post) f y =
    Ok (if decide (last (pre ++ f :: post) = Some f) then pre ++ f :: post ++ [y]
        else pre ++ f :: y :: post).
Proof.
  intros Hpre Hget. destruct (decide _) as [Hl|Hl].
  - unfold set_option_in_args. rewrite Hget. simpl.
    rewrite (py_last_Some _ _ Hl). simpl. rewrite String.eqb_refl. simpl.
    rewrite <- app_assoc. reflexivity.
  - rewrite get_option_split in Hget by done. rewrite decide_False in Hget by done.
    destruct post as [|t rest].
    + exfalso. apply Hl. apply last_snoc.
    + destruct (startswith t "-") eqn:Ht; [|discriminate].
      destruct (last_app_cons_ne pre f (t :: rest)) as [l El].
      apply (set_option_insert pre f t rest y l); [done|done|done|congruence].
Qed.

(** ** Instances of the theorems on sample inputs *)

Lemma delphes_create_dag_groups_witness :
  exists jobs,
    delphes_create_dag (fun _ => true) "/data/in" ["a.lhe"; "b.lhe"; "c.lhe"]
      "input_cards/delphes_card.dat" "/data/out" "lhe" = Done jobs /\
    exists delphes_exe groups,
      exe_dict "lhe" = Some delphes_exe /\
      concat groups = ["/data/in/a.lhe"; "/data/in/b.lhe"; "/data/in/c.lhe"] /\
      Forall (fun g => 1 <= length g <= 2) groups /\
      length jobs = (3 + 1) / 2 /\
      jobs = imap (fun i g => {| dj_name := "delphes" +:+ pretty i;
                                 dj_args := delphes_job_args "input_cards/delphes_card.dat"
                                              delphes_exe "/data/out" g |})
                  groups.
Proof.
  eexists. split; [vm_compute; reflexivity|].
  apply (delphes_create_dag_groups (fun _ => true) "/data/in" ["a.lhe"; "b.lhe"; "c.lhe"]
           "input_cards/delphes_card.dat" "/data/out" "lhe").
  vm_compute. reflexivity.
Defined.

Lemma generate_output_dir_sibling_witness :
  str_has "/" "hepmc" = false /\
  dirname (generate_output_dir "/data/ggh/lhe/" "input_cards/ggh.dat" "hepmc") =
    dirname (rstrip "/" "/data/ggh/lhe/") /\
  basename (generate_output_dir "/data/ggh/lhe/" "input_cards/ggh.dat" "hepmc") =
    (splitext (basename "input_cards/ggh.dat")).1 +:+ "_" +:+ "hepmc" /\
  endswith (generate_output_dir "/data/ggh/lhe/" "input_cards/ggh.dat" "hepmc") "/" = false.
Proof.
  split; [reflexivity|].
  apply (generate_output_dir_sibling "/data/ggh/lhe/" "input_cards/ggh.dat" "hepmc").
  reflexivity.
Defined.

Lemma get_number_events_value_witness :
  ("--number" = "--number" \/
   ("--number" = "-n" /\ "--number" ∉ ["-n"; "10"] ++ ["--number"])) /\
  ("--number" ∉ ["-n"; "10"]) /\
  get_number_events (["-n"; "10"] ++ "--number" :: pretty 100%Z :: ["--number"]) =
    (if decide ((0 <= 100)%Z /\
                last (["-n"; "10"] ++ "--number" :: pretty 100%Z :: ["--number"])
                  <> Some "--number")
     then Done 100%Z else Raise TypeError).
Proof.
  assert (H1 : "--number" = "--number" \/
               ("--number" = "-n" /\ "--number" ∉ ["-n"; "10"] ++ ["--number"]))
    by (left; reflexivity).
  assert (H2 : "--number" ∉ ["-n"; "10"]) by (vm_compute; set_solver).
  split_and!; [exact H1|exact H2|].
  apply (get_number_events_value ["-n"; "10"] ["--number"] "--number" 100%Z H1 H2).
Defined.

Lemma make_card_copy_witness :
  ({[ "run_card.dat" := "set nevents 100" +:+ String nl "" ]} : filesystem) !! "run_card.dat"
    = Some ("set nevents 100" +:+ String nl "") /\
  (forall f line, f ∈ [("iseed", "42")] ->
     line ∈ readlines ("set nevents 100" +:+ String nl "") -> contains f.1 line = false) /\
  make_card {[ "run_card.dat" := "set nevents 100" +:+ String nl "" ]}
    "run_card.dat" "run_card_new.dat" [("iseed", "42")] =
    (Ok tt, <[ "run_card_new.dat" := "set nevents 100" +:+ String nl "" ]>
              ({[ "run_card.dat" := "set nevents 100" +:+ String nl "" ]} : filesystem)).
Proof.
  assert (H1 : ({[ "run_card.dat" := "set nevents 100" +:+ String nl "" ]} : filesystem)
                 !! "run_card.dat" = Some ("set nevents 100" +:+ String nl ""))
    by (vm_compute; reflexivity).
  assert (H2 : forall f line, f ∈ [("iseed", "42")] ->
     line ∈ readlines ("set nevents 100" +:+ String nl "") -> contains f.1 line = false).
  { intros f line Hf Hl. apply list_elem_of_singleton in Hf. subst f.
    vm_compute in Hl. apply list_elem_of_singleton in Hl. subst line.
    vm_compute. reflexivity. }
  split_and!; [exact H1|exact H2|].
  apply (make_card_copy _ _ _ _ _ H1 H2).
Defined.

Lemma run_mg5_keeps_template_witness :
  ((None : option string) = None \/ (None : option string) = Some "") /\
  run_mg5_make_card {[ "run_card.dat" := "set nevents 100" +:+ String nl "" ]}
    "run_card.dat" None [("nevents", "500")] =
    (Ok tt, <[ "run_card_new.dat" := "set nevents 500" +:+ String nl "" ]>
              ({[ "run_card.dat" := "set nevents 100" +:+ String nl "" ]} : filesystem)) /\
  (<[ "run_card_new.dat" := "set nevents 500" +:+ String nl "" ]>
     ({[ "run_card.dat" := "set nevents 100" +:+ String nl "" ]} : filesystem))
    !! "run_card.dat" =
  ({[ "run_card.dat" := "set nevents 100" +:+ String nl "" ]} : filesystem) !! "run_card.dat".
Proof.
  assert (Hn : (None : option string) = None \/ (None : option string) = Some "")
    by (left; reflexivity).
  assert (H : run_mg5_make_card {[ "run_card.dat" := "set nevents 100" +:+ String nl "" ]}
    "run_card.dat" None [("nevents", "500")] =
    (Ok tt, <[ "run_card_new.dat" := "set nevents 500" +:+ String nl "" ]>
              ({[ "run_card.dat" := "set nevents 100" +:+ String nl "" ]} : filesystem)))
    by (vm_compute; reflexivity).
  split_and!; [exact Hn|exact H|].
  apply (run_mg5_keeps_template _ _ None _ _ _ Hn H).
Defined.

Lemma get_value_from_card_ok_witness :
  get_value_from_card {[ "proc_card.dat" := "output ggh_4tau" +:+ String nl "" ]}
    "proc_card.dat" "output" = Ok "ggh_4tau" /\
  exists content pre line post,
    ({[ "proc_card.dat" := "output ggh_4tau" +:+ String nl "" ]} : filesystem)
      !! "proc_card.dat" = Some content /\
    readlines content = pre ++ line :: post /\
    Forall (fun l => contains "output" (strip l) = false) pre /\
    contains "output" (strip line) = true /\
    last (split_ws (strip line)) = Some "ggh_4tau" /\
    "ggh_4tau" <> "" /\ (forall c, str_has c "ggh_4tau" = true -> is_space c = false).
Proof.
  assert (H : get_value_from_card {[ "proc_card.dat" := "output ggh_4tau" +:+ String nl "" ]}
                "proc_card.dat" "output" = Ok "ggh_4tau") by (vm_compute; reflexivity).
  split; [exact H|]. apply (get_value_from_card_ok _ _ _ _ H).
Defined.


Lemma set_option_fill_witness :
  ("--man" ∉ ["--foo"; "ball"]) /\
  get_option_in_args (["--foo"; "ball"] ++ "--man" :: ["--pasta"]) "--man" = Ok None /\
  set_option_in_args (["--foo"; "ball"] ++ "--man" :: ["--pasta"]) "--man" "trap" =
    Ok (if decide (last (["--foo"; "ball"] ++ "--man" :: ["--pasta"]) = Some "--man")
        then ["--foo"; "ball"] ++ "--man" :: ["--pasta"] ++ ["trap"]
        else ["--foo"; "ball"] ++ "--man" :: "trap" :: ["--pasta"]).
Proof.
  assert (H1 : "--man" ∉ ["--foo"; "ball"]) by (vm_compute; set_solver).
  assert (H2 : get_option_in_args (["--foo"; "ball"] ++ "--man" :: ["--pasta"]) "--man"
                 = Ok None) by reflexivity.
  split_and!; [exact H1|exact H2|].
  apply (set_option_fill _ _ _ "trap" H1 H2).
Defined.
